(** * The Stokvel listener agent (listener.py): auto-fund rules, the periodic
      auditor and the agent loop, as functions over an explicit world.

    Every call that leaves the process (rule database, contract reads,
    transaction signing and sending, the socket notifier, the text model) is
    an element of [call]; the world answers it with a value or with a Python
    exception, and the answer is recorded in the trace.  [print] statements
    are not modelled. *)

From Stdlib Require Import ZArith List String Ascii Bool Lia QArith.
From Stdlib Require Import Floats.SpecFloat.
Import ListNotations.
Local Open Scope Z_scope.

(** ** Python values and exceptions *)

(** An exception of class [Exception], by its name or text: what the
    [except Exception] clauses of the agent catch. *)
Definition exn := string.

Inductive outcome (A : Type) : Type :=
| Returned (a : A)
| Raised (e : exn).
Arguments Returned {A} a.
Arguments Raised {A} e.

(** The float side of the program: [float(w3.from_wei(n, 'ether'))],
    [w3.to_wei(x, 'ether')] and the comparisons of Python floats.  web3 is not
    part of the repository, so its conversions are operations of an
    interface; both can raise (a value outside the range of a uint256). *)
Class EtherOps (F : Type) : Type := {
  from_wei : Z -> outcome F;
  to_wei : F -> outcome Z;
  f_lt : F -> F -> bool;
  f_ge : F -> F -> bool;
  f_pos : F -> bool
}.

(** What is used of the order of floats: [<] is irreflexive and asymmetric,
    and [a >= b] excludes [a < b].  IEEE comparisons satisfy the three, NaN
    included. *)
Record EtherOrder {F : Type} (E : EtherOps F) : Prop := {
  f_lt_irrefl : forall a, f_lt a a = false;
  f_lt_asym : forall a b, f_lt a b = true -> f_lt b a = false;
  f_ge_not_lt : forall a b, f_ge a b = true -> f_lt a b = false
}.

(** [str.lower()] on the 42-character hexadecimal addresses the agent
    compares. *)
Definition lower_ascii (c : ascii) : ascii :=
  let n := nat_of_ascii c in
  if (Nat.leb 65 n && Nat.leb n 90)%bool then ascii_of_nat (n + 32) else c.

Fixpoint lower (s : string) : string :=
  match s with
  | EmptyString => EmptyString
  | String c s' => String (lower_ascii c) (lower s')
  end.

(** ** Data *)

(** Modelled from the spec: the tuple returned by [getLoan] (the contract ABI,
    Stokvel.json, is not in the repository).  Section 6 lists its nine
    components in order; the agent reads positions 1, 2, 5, 6 and 7. *)
Record LoanData : Type := {
  borrower : string;
  amountRequested : Z;
  amountFunded : Z;
  collateralLocked : Z;
  totalInterest : Z;
  isActive : bool;
  isDefaulted : bool;
  nextInstallmentIndex : Z;
  createdAt : Z
}.

(** Modelled from the spec: the tuple returned by [getMember]; the agent reads
    position 5, [availableSavings].  The spec does not name position 1. *)
Record MemberData : Type := {
  m_isActive : bool;
  m_position1 : Z;
  totalSavings : Z;
  amountLentOut : Z;
  lockedCollateral : Z;
  availableSavings : Z
}.

(** Modelled from the spec: the tuple returned by [getInstallment]; the agent
    reads position 0, [dueDate]. *)
Record InstallmentData : Type := {
  dueDate : Z;
  amountDue : Z;
  lateFees : Z;
  isPaid : bool
}.

Record LoanRequestedArgs : Type := { lr_loanId : Z; lr_borrower : string }.
Record ApplicationArgs : Type := { ap_applicant : string }.
Record LoanFundedArgs : Type :=
  { lf_loanId : Z; lf_lender : string; lf_amount : Z }.
Record LoanDisbursedArgs : Type :=
  { ld_loanId : Z; ld_borrower : string; ld_amount : Z }.

(** The transaction built for [fundLoan(loan_id, fund_amount_wei)] with
    [tx_data]. *)
Record Tx : Type := {
  tx_loan_id : Z;
  tx_amount : Z;
  tx_nonce : Z;
  tx_gasPrice : Z
}.

Inductive severity : Type := info | success | alert.

(** The four kinds of contract events the agent polls. *)
Inductive event_kind : Type :=
| ApplicationSubmitted
| LoanFunded
| LoanDisbursed
| LoanRequested.

Section Agent.

Context {F : Type} {E : EtherOps F}.

Record AutoFundRule : Type := {
  id : Z;
  user_address : string;
  max_fund_amount : F;
  min_savings_balance : F;
  is_active : bool
}.

(** The texts sent to the notifier, by template. *)
Inductive message : Type :=
| MsgInvested (fund_amount_ether : F) (loan_id : Z)
| MsgFundFailed (loan_id : Z)
| MsgOverdue (loan_id : Z)
| MsgText (text : string)
| MsgLoanFunded (loan_id amount : Z)
| MsgDisbursed (loan_id amount : Z).

Record notification : Type := {
  n_message : message;
  n_type : option severity
}.

(** ** Calls to the outside, indexed by the type of their answer *)

Inductive call : Type -> Type :=
| QueryActiveRules : call (list AutoFundRule)
| GetLoan (loan_id : Z) : call LoanData
| GetMember (addr : string) : call MemberData
| GetTotalLoans : call Z
| GetInstallment (loan_id idx : Z) : call InstallmentData
| GetTransactionCount : call Z
| GasPrice : call Z
| BuildTransaction (t : Tx) : call unit
| SignTransaction (t : Tx) : call unit
| SendRawTransaction (t : Tx) : call Z
| WaitForTransactionReceipt (t : Tx) (tx_hash : Z) : call Z
| Emit (n : notification) : call unit
| GenerateContent : call string
| CreateFilter (kind : event_kind) : call unit
| NewLoanRequested : call (list LoanRequestedArgs)
| NewApplications : call (list ApplicationArgs)
| NewLoanFunded : call (list LoanFundedArgs)
| NewLoanDisbursed : call (list LoanDisbursedArgs).

(** A trace records every call with its answer, every [time.sleep] and every
    reading of [time.time()]. *)
Inductive entry : Type :=
| Entry {X : Type} (c : call X) (r : outcome X)
| Slept (secs : Z)
| TimeRead (t : Q).

Definition trace := list entry.

(** ** The world and the monad of the agent *)

Variable W : Type.
Variable env : forall X : Type, call X -> W -> outcome X * W.
Variable sleep : Z -> W -> W.
Variable clock : W -> Q * W.
(** [time.time() - last_default_check], a subtraction of floats. *)
Variable clock_sub : Q -> Q -> Q.
(** Whether GEMINI_API_KEY was set at start-up ([model] is not None). *)
Variable model_configured : bool.

Record run (A : Type) : Type := Run {
  value : outcome A;
  final : W;
  log : trace
}.
Arguments Run {A} value final log.
Arguments value {A} r.
Arguments final {A} r.
Arguments log {A} r.

Definition M (A : Type) : Type := W -> run A.

Definition ret {A} (a : A) : M A := fun w => Run (Returned a) w [].

Definition lift {A} (o : outcome A) : M A := fun w => Run o w [].

Definition bind {A B} (m : M A) (k : A -> M B) : M B :=
  fun w =>
    match m w with
    | Run (Returned a) w1 t1 =>
        match k a w1 with
        | Run r w2 t2 => Run r w2 (t1 ++ t2)
        end
    | Run (Raised e) w1 t1 => Run (Raised e) w1 t1
    end.

(** [try: m except Exception as e: h e]; what [m] did before it raised
    stays done. *)
Definition try_except {A} (m : M A) (h : exn -> M A) : M A :=
  fun w =>
    match m w with
    | Run (Returned a) w1 t1 => Run (Returned a) w1 t1
    | Run (Raised e) w1 t1 =>
        match h e w1 with
        | Run r w2 t2 => Run r w2 (t1 ++ t2)
        end
    end.

Definition perform {X} (c : call X) : M X :=
  fun w => let (r, w') := env X c w in Run r w' [Entry c r].

Definition time_sleep (secs : Z) : M unit :=
  fun w => Run (Returned tt) (sleep secs w) [Slept secs].

Definition time_time : M Q :=
  fun w => let (t, w') := clock w in Run (Returned t) w' [TimeRead t].

Notation "x <- m ;; k" := (bind m (fun x => k))
  (at level 61, m at next level, right associativity).
Notation "m ;;; k" := (bind m (fun _ => k))
  (at level 61, right associativity).

Fixpoint for_each {A} (l : list A) (body : A -> M unit) : M unit :=
  match l with
  | [] => ret tt
  | x :: l' => body x ;;; for_each l' body
  end.

(** ** handle_auto_fund *)

(** Python's [min(a, b)]: [b] when [b < a], else [a]. *)
Definition py_min (a b : F) : F := if f_lt b a then b else a.

Inductive flow : Type := Continue | Break.

Definition success_notification (fund_amount_ether : F) (loan_id : Z)
  : notification :=
  {| n_message := MsgInvested fund_amount_ether loan_id;
     n_type := Some success |}.

Definition failure_notification (loan_id : Z) : notification :=
  {| n_message := MsgFundFailed loan_id; n_type := Some alert |}.

(** The body of the [try] of one rule (lines 189-285).  It returns the value
    of [amount_needed_wei] after the body and whether the loop goes on. *)
Definition rule_body (loan_id : Z) (borrower_address : string)
    (rule : AutoFundRule) (amount_needed_wei : Z) : M (Z * flow) :=
  let potential_lender_address := user_address rule in
  if String.eqb (lower potential_lender_address) (lower borrower_address)
  then ret (amount_needed_wei, Continue)
  else
    lender_data <- perform (GetMember potential_lender_address) ;;
    let available_savings_wei := availableSavings lender_data in
    available_savings_ether <- lift (from_wei available_savings_wei) ;;
    amount_needed_ether <- lift (from_wei amount_needed_wei) ;;
    if f_ge available_savings_ether (min_savings_balance rule) then
      let fund_amount_ether :=
        py_min (max_fund_amount rule) amount_needed_ether in
      if (f_pos fund_amount_ether
          && f_ge available_savings_ether fund_amount_ether)%bool
      then
        fund_amount_wei <- lift (to_wei fund_amount_ether) ;;
        nonce <- perform GetTransactionCount ;;
        gas_price <- perform GasPrice ;;
        let fund_tx :=
          {| tx_loan_id := loan_id; tx_amount := fund_amount_wei;
             tx_nonce := nonce; tx_gasPrice := gas_price |} in
        perform (BuildTransaction fund_tx) ;;;
        perform (SignTransaction fund_tx) ;;;
        tx_hash <- perform (SendRawTransaction fund_tx) ;;
        status <- perform (WaitForTransactionReceipt fund_tx tx_hash) ;;
        if status =? 1 then
          perform (Emit (success_notification fund_amount_ether loan_id)) ;;;
          let amount_needed_wei := amount_needed_wei - fund_amount_wei in
          if amount_needed_wei <=? 0
          then ret (amount_needed_wei, Break)
          else ret (amount_needed_wei, Continue)
        else
          perform (Emit (failure_notification loan_id)) ;;;
          ret (amount_needed_wei, Continue)
      else ret (amount_needed_wei, Continue)
    else ret (amount_needed_wei, Continue).

(** One turn of [for rule in active_rules]: the body under its
    [except Exception: ... continue]. *)
Definition rule_iteration (loan_id : Z) (borrower_address : string)
    (rule : AutoFundRule) (amount_needed_wei : Z) : M (Z * flow) :=
  try_except (rule_body loan_id borrower_address rule amount_needed_wei)
             (fun _ => ret (amount_needed_wei, Continue)).

Fixpoint rules_loop (loan_id : Z) (borrower_address : string)
    (rules : list AutoFundRule) (amount_needed_wei : Z) : M Z :=
  match rules with
  | [] => ret amount_needed_wei
  | rule :: rest =>
      r <- rule_iteration loan_id borrower_address rule amount_needed_wei ;;
      match snd r with
      | Break => ret (fst r)
      | Continue => rules_loop loan_id borrower_address rest (fst r)
      end
  end.

Definition handle_auto_fund (event : LoanRequestedArgs) : M unit :=
  let loan_id := lr_loanId event in
  let borrower_address := lr_borrower event in
  active_rules <- perform QueryActiveRules ;;
  match active_rules with
  | [] => ret tt
  | _ :: _ =>
      loan_data <- perform (GetLoan loan_id) ;;
      let amount_requested_wei := amountRequested loan_data in
      let amount_funded_wei := amountFunded loan_data in
      let amount_needed_wei := amount_requested_wei - amount_funded_wei in
      if amount_needed_wei <=? 0 then ret tt
      else
        rules_loop loan_id borrower_address active_rules amount_needed_wei ;;;
        ret tt
  end.

(** ** check_for_potential_defaults *)

Definition overdue_notification (i : Z) : notification :=
  {| n_message := MsgOverdue i; n_type := Some alert |}.

(** [time.time() > due_date_timestamp + 5616000]: Python compares a float
    with an int exactly. *)
Definition past_grace (now : Q) (due_date_timestamp : Z) : bool :=
  negb (Qle_bool now (inject_Z (due_date_timestamp + 5616000))).

Definition eligible (loan_data : LoanData) : bool :=
  (isActive loan_data && negb (isDefaulted loan_data)
   && (nextInstallmentIndex loan_data <? 12))%bool.

(** The body of [for i in range(total_loans)] for one [i]. *)
Definition check_loan (i : Z) : M unit :=
  loan_data <- perform (GetLoan i) ;;
  let next_idx := nextInstallmentIndex loan_data in
  if eligible loan_data then
    installment_data <- perform (GetInstallment i next_idx) ;;
    let due_date_timestamp := dueDate installment_data in
    now <- time_time ;;
    if past_grace now due_date_timestamp
    then perform (Emit (overdue_notification i))
    else ret tt
  else ret tt.

(** [range(n)]. *)
Definition range (n : Z) : list Z := map Z.of_nat (seq 0 (Z.to_nat n)).

Definition scan_loans (ids : list Z) : M unit := for_each ids check_loan.

Definition check_for_potential_defaults : M unit :=
  try_except
    (total_loans <- perform GetTotalLoans ;;
     scan_loans (range total_loans))
    (fun _ => ret tt).

(** ** The informational handlers *)

Definition fallback_message : string :=
  "A new member has applied! Check the Governance tab to cast your vote.".

Definition handle_new_application (event : ApplicationArgs) : M unit :=
  message <-
    try_except
      (if model_configured then perform GenerateContent
       else lift (Raised "Gemini model not available."%string))
      (fun _ => ret fallback_message) ;;
  perform (Emit {| n_message := MsgText message; n_type := None |}).

(** [w3.from_wei] raises on an amount outside the range of a uint256; the
    Decimal it returns is only formatted into the text. *)
Definition handle_loan_funded (event : LoanFundedArgs) : M unit :=
  lift (from_wei (lf_amount event)) ;;;
  let loan_id := lf_loanId event in
  perform (Emit {| n_message := MsgLoanFunded loan_id (lf_amount event);
                   n_type := Some info |}).

Definition handle_loan_disbursed (event : LoanDisbursedArgs) : M unit :=
  lift (from_wei (ld_amount event)) ;;;
  let loan_id := ld_loanId event in
  perform (Emit {| n_message := MsgDisbursed loan_id (ld_amount event);
                   n_type := Some success |}).

(** ** listen_for_events *)

(** Lines 129-155, the body of the [try] of one turn of [while True].  It
    returns the value of [last_default_check] after the turn. *)
Definition turn_body (last_default_check : Q) : M Q :=
  events <- perform NewLoanRequested ;;
  for_each events handle_auto_fund ;;;
  events <- perform NewApplications ;;
  for_each events handle_new_application ;;;
  events <- perform NewLoanFunded ;;
  for_each events handle_loan_funded ;;;
  events <- perform NewLoanDisbursed ;;
  for_each events handle_loan_disbursed ;;;
  now <- time_time ;;
  last_default_check <-
    (if negb (Qle_bool (clock_sub now last_default_check) (inject_Z 300))
     then check_for_potential_defaults ;;; time_time
     else ret last_default_check) ;;
  time_sleep 15 ;;;
  ret last_default_check.

(** One turn of the loop with its [except Exception]. *)
Definition turn (last_default_check : Q) : M Q :=
  try_except (turn_body last_default_check)
             (fun _ => time_sleep 15 ;;; ret last_default_check).

(** The first [n] turns of [while True]. *)
Fixpoint turns (n : nat) (last_default_check : Q) : M Q :=
  match n with
  | O => ret last_default_check
  | S n' => last <- turn last_default_check ;; turns n' last
  end.

(** Lines 110-124: the four filters, in the order of the source, and the
    first reading of the clock. *)
Definition create_filters : M unit :=
  perform (CreateFilter ApplicationSubmitted) ;;;
  perform (CreateFilter LoanFunded) ;;;
  perform (CreateFilter LoanDisbursed) ;;;
  perform (CreateFilter LoanRequested).

(** [listen_for_events], cut after [n] turns of its loop. *)
Definition listen_for_events (n : nat) : M Q :=
  create_filters ;;;
  last_default_check <- time_time ;;
  turns n last_default_check.

(** ** What a trace shows *)

(** The transactions handed to [send_raw_transaction]. *)
Fixpoint submitted (t : trace) : list Tx :=
  match t with
  | [] => []
  | Entry (SendRawTransaction tx) _ :: t' => tx :: submitted t'
  | _ :: t' => submitted t'
  end.

(** The amounts of the transactions whose receipt came back with status 1. *)
Fixpoint confirmed (t : trace) : list Z :=
  match t with
  | [] => []
  | Entry (WaitForTransactionReceipt tx _) (Returned status) :: t' =>
      if status =? 1 then tx_amount tx :: confirmed t' else confirmed t'
  | _ :: t' => confirmed t'
  end.

(** The notifications handed to [sio.emit]. *)
Fixpoint emitted (t : trace) : list notification :=
  match t with
  | [] => []
  | Entry (Emit n) _ :: t' => n :: emitted t'
  | _ :: t' => emitted t'
  end.

(** The loans named by the overdue alerts of a trace. *)
Fixpoint overdue_alerts (t : trace) : list Z :=
  match t with
  | [] => []
  | Entry (Emit {| n_message := MsgOverdue i; n_type := Some alert |}) _
    :: t' => i :: overdue_alerts t'
  | _ :: t' => overdue_alerts t'
  end.

(** The statuses of the receipts obtained, with their transactions. *)
Fixpoint receipts (t : trace) : list (Tx * Z) :=
  match t with
  | [] => []
  | Entry (WaitForTransactionReceipt tx _) (Returned status) :: t' =>
      (tx, status) :: receipts t'
  | _ :: t' => receipts t'
  end.

(** The loan views fetched, with the loan ids they were asked for. *)
Fixpoint loan_views (t : trace) : list (Z * LoanData) :=
  match t with
  | [] => []
  | Entry (GetLoan i) (Returned d) :: t' => (i, d) :: loan_views t'
  | _ :: t' => loan_views t'
  end.

(** The installment of loan [i] at index [idx] and the clock reading that
    follow a loan view in the trace, when they do. *)
Definition due_view (i idx : Z) (t : trace) : option (InstallmentData * Q) :=
  match t with
  | Entry (GetInstallment i' idx') (Returned inst) :: TimeRead now :: _ =>
      if ((i' =? i) && (idx' =? idx))%bool then Some (inst, now) else None
  | _ => None
  end.

Definition audit_view : Type := Z * LoanData * option (InstallmentData * Q).

(** What the auditor read about each loan it looked at. *)
Fixpoint audited (t : trace) : list audit_view :=
  match t with
  | [] => []
  | Entry (GetLoan i) (Returned d) :: t' =>
      (i, d, due_view i (nextInstallmentIndex d) t') :: audited t'
  | _ :: t' => audited t'
  end.

Definition view_id (v : audit_view) : Z := fst (fst v).

(** The condition of section 4.4 on what was read about a loan:
    [isActive && !isDefaulted && nextInstallmentIndex < 12] and
    [now > dueTimestamp + 5616000]. *)
Definition severely_overdue (v : audit_view) : bool :=
  match v with
  | (_, d, Some (inst, now)) =>
      (isActive d && negb (isDefaulted d) && (nextInstallmentIndex d <? 12)
       && negb (Qle_bool now (inject_Z (dueDate inst + 5616000))))%bool
  | (_, _, None) => false
  end.

(** A contract read of the trace raised. *)
Fixpoint read_raised (t : trace) : bool :=
  match t with
  | [] => false
  | Entry (GetLoan _) (Raised _) :: _ => true
  | Entry (GetInstallment _ _) (Raised _) :: _ => true
  | _ :: t' => read_raised t'
  end.

(** A call of [sio.emit] raised. *)
Fixpoint emit_failed (t : trace) : bool :=
  match t with
  | [] => false
  | Entry (Emit _) (Raised _) :: _ => true
  | _ :: t' => emit_failed t'
  end.

Definition raised_entry (e : entry) : bool :=
  match e with
  | Entry _ (Raised _) => true
  | _ => false
  end.

(** No call of the trace raised. *)
Definition quiet (t : trace) : bool := forallb (fun e => negb (raised_entry e)) t.

Definition pacing_sleeps (t : trace) : nat :=
  List.length (filter (fun e => match e with
                                | Slept 15 => true
                                | _ => false
                                end) t).

Definition sum (l : list Z) : Z := fold_right Z.add 0 l.

(** The conversions do not inflate an amount: what [to_wei] gives for
    [min(m, from_wei n)] is at most [n].  Exact arithmetic has the property;
    the round trip through binary64 and its decimal representation is not
    bound to it. *)
Definition conversions_do_not_inflate : Prop :=
  forall n m x k,
    from_wei n = Returned x -> to_wei (py_min m x) = Returned k -> k <= n.

(** A computation that never pauses. *)
Definition sleepless {A} (m : M A) : Prop :=
  forall w, pacing_sleeps (log (m w)) = 0%nat.

(** A computation that pauses 15 seconds once, as its last action, when it
    returns, and not at all when it raises. *)
Definition paced {A} (m : M A) : Prop :=
  forall w,
    match value (m w) with
    | Returned _ =>
        exists t, log (m w) = t ++ [Slept 15] /\ pacing_sleeps t = 0%nat
    | Raised _ => pacing_sleeps (log (m w)) = 0%nat
    end.

(** ** Further observers *)

(** The installments asked for, as (loan id, index). *)
Fixpoint installment_reads (t : trace) : list (Z * Z) :=
  match t with
  | [] => []
  | Entry (GetInstallment i idx) _ :: t' => (i, idx) :: installment_reads t'
  | _ :: t' => installment_reads t'
  end.

Definition is_submission (e : entry) : bool :=
  match e with
  | Entry (SendRawTransaction _) _ => true
  | _ => false
  end.

(** The call that opens a run of the auditor. *)
Definition is_audit_start (e : entry) : bool :=
  match e with
  | Entry GetTotalLoans _ => true
  | _ => false
  end.

Definition is_poll (e : entry) : bool :=
  match e with
  | Entry NewLoanRequested _ => true
  | Entry NewApplications _ => true
  | Entry NewLoanFunded _ => true
  | Entry NewLoanDisbursed _ => true
  | _ => false
  end.

Definition count_entries (p : entry -> bool) (t : trace) : nat :=
  List.length (filter p t).

(** A computation none of whose entries satisfies [p]. *)
Definition never {A} (p : entry -> bool) (m : M A) : Prop :=
  forall w, count_entries p (log (m w)) = 0%nat.

(** Notification [n] is what lines 251-275 send about a receipt for a
    funding of loan [loan_id]: the success message when the status is 1, the
    alert otherwise. *)
Definition announces (loan_id : Z) (n : notification) (r : Tx * Z) : Prop :=
  if snd r =? 1
  then exists fund_amount_ether,
         n = success_notification fund_amount_ether loan_id
  else n = failure_notification loan_id.

(** What a part of a turn has done with [last_default_check], as its trace
    shows.  When it returns, either it started no audit and returns the value
    it was given, or it started one audit and returns the reading of the
    clock that comes just before its final sleep.  When it raises, it started
    no audit. *)
Definition keeps_audit_time (last_default_check : Q) (r : run Q) : Prop :=
  match value r with
  | Returned last' =>
      (count_entries is_audit_start (log r) = 0%nat
       /\ last' = last_default_check)
      \/ (count_entries is_audit_start (log r) = 1%nat
          /\ exists before, log r = before ++ [TimeRead last'; Slept 15])
  | Raised _ => count_entries is_audit_start (log r) = 0%nat
  end.

End Agent.

Arguments Run {F W A} value final log.
Arguments value {F W A} r.
Arguments final {F W A} r.
Arguments log {F W A} r.
Arguments Entry {F X} c r.
Arguments Slept {F} secs.
Arguments TimeRead {F} t.

(** ** The query API (app.py) *)

(** What a route returns: [jsonify({'success': True, 'data': ...})], or
    [jsonify({'success': False, 'error': ...})] with its HTTP status. *)
Inductive response (D : Type) : Type :=
| Success (data : D)
| Failure (status : Z) (error : string).
Arguments Success {D} data.
Arguments Failure {D} status error.

(** An entry of /api/open-loans.  The two amounts stand for the decimal texts
    [str(w3.from_wei(..., 'ether'))] of these numbers of wei. *)
Record OpenLoan : Type := {
  ol_loanId : Z;
  ol_borrower : string;
  ol_amountRequested : Z;
  ol_amountFunded : Z
}.


(** A value of a JSON request body, as far as [bool()] and [float()] tell
    values apart; arrays and objects only by whether they are empty. *)
Inductive json {F : Type} : Type :=
| JNull
| JBool (b : bool)
| JInt (z : Z)
| JFloat (x : F)
| JString (s : string)
| JCompound (nonempty : bool).
Arguments json F : clear implicits.

(** The body of a POST to /api/agent/autofund: the four keys the route
    reads, each absent or present.  The address, when present, is a string. *)
Record autofund_request {F : Type} : Type := {
  rq_address : option string;
  rq_max_fund_amount : option (json F);
  rq_min_savings_balance : option (json F);
  rq_is_active : option (json F)
}.
Arguments autofund_request F : clear implicits.

(** What GET /api/agent/autofund shows of a rule. *)
Record rule_view {F : Type} : Type := {
  rv_max_fund_amount : F;
  rv_min_savings_balance : F;
  rv_is_active : bool
}.
Arguments rule_view F : clear implicits.

Section Api.

Context {F : Type} {E : EtherOps F}.
Variable W : Type.
Variable env : forall X : Type, @call F X -> W -> outcome X * W.
(** [w3.to_checksum_address] and [w3.is_address]. *)
Variable to_checksum_address : string -> outcome string.
Variable is_address : string -> bool.
(** [float] on an int and on a str, the float 0.0 and the test [x != 0.0]. *)
Variable float_of_int : Z -> outcome F.
Variable float_of_string : string -> outcome F.
Variable f_zero : F.
Variable f_nonzero : F -> bool.
(** Whether a float is a NaN ([float('nan')], or NaN in the JSON body). *)
Variable f_is_nan : F -> bool.

Local Notation "x <- m ;; k" := (bind W m (fun x => k))
  (at level 61, m at next level, right associativity).
Local Notation "m ;;; k" := (bind W m (fun _ => k))
  (at level 61, right associativity).

(** A loop over loan ids that appends to a list. *)
Fixpoint collect {A} (ids : list Z) (body : Z -> @M F W (list A))
    (acc : list A) : @M F W (list A) :=
  match ids with
  | [] => ret W acc
  | i :: rest => items <- body i ;; collect rest body (acc ++ items)
  end.

(** [not loan_data[5] and not loan_data[6] and loan_data[2] < loan_data[1]]. *)
Definition is_open (loan_data : LoanData) : bool :=
  (negb (isActive loan_data) && negb (isDefaulted loan_data)
   && (amountFunded loan_data <? amountRequested loan_data))%bool.

Definition listed_open (v : Z * LoanData) : bool := is_open (snd v).

(** The entry a returned [getLoan(i).call()] leaves in the trace. *)
Definition viewed (v : Z * LoanData) : @entry F :=
  Entry (GetLoan (fst v)) (Returned (snd v)).

Definition open_loan_of (i : Z) (loan_data : LoanData) : OpenLoan :=
  {| ol_loanId := i;
     ol_borrower := borrower loan_data;
     ol_amountRequested := amountRequested loan_data;
     ol_amountFunded := amountFunded loan_data |}.

(** One turn of the loop of get_open_loans: what it appends. *)
Definition open_loans_step (i : Z) : @M F W (list OpenLoan) :=
  loan_data <- perform W env (GetLoan i) ;;
  if is_open loan_data then
    lift W (from_wei (amountRequested loan_data)) ;;;
    lift W (from_wei (amountFunded loan_data)) ;;;
    ret W [open_loan_of i loan_data]
  else ret W [].

Definition get_open_loans : @M F W (response (list OpenLoan)) :=
  try_except W
    (total_loans <- perform W env GetTotalLoans ;;
     open_loans <- collect (range total_loans) open_loans_step [] ;;
     ret W (Success open_loans))
    (fun e => ret W (Failure 200 e)).






(** *** The rule store and /api/agent/autofund *)

(** The table auto_fund_rule, by rows. *)
Definition table : Type := list (@AutoFundRule F).

(** [AutoFundRule.query.filter_by(user_address=address).first()]. *)
Definition first_rule (address : string) (db : table)
  : option (@AutoFundRule F) :=
  find (fun rule => String.eqb (user_address rule) address) db.

(** [query(AutoFundRule).filter_by(is_active=True).all()], the query of
    handle_auto_fund. *)
Definition active_rules (db : table) : table := filter is_active db.

(** Python's truth value. *)
Definition truthy (v : json F) : bool :=
  match v with
  | JNull => false
  | JBool b => b
  | JInt z => negb (z =? 0)
  | JFloat x => f_nonzero x
  | JString s => negb (String.eqb s "")
  | JCompound nonempty => nonempty
  end.

(** Python's [float(v)]; [bool] is a subclass of [int]. *)
Definition py_float (v : json F) : outcome F :=
  match v with
  | JNull => Raised "TypeError"%string
  | JBool b => float_of_int (if b then 1 else 0)
  | JInt z => float_of_int z
  | JFloat x => Returned x
  | JString s => float_of_string s
  | JCompound _ => Raised "TypeError"%string
  end.

(** [data.get(key)]: None for a missing key. *)
Definition get_or_none (v : option (json F)) : json F :=
  match v with
  | Some x => x
  | None => JNull
  end.

(** [float(value) if value else 0.0]. *)
Definition float_or_zero (v : json F) : outcome F :=
  if truthy v then py_float v else Returned f_zero.

(** The id SQLite gives a new row: one more than the largest in the table. *)
Definition next_id (db : table) : Z :=
  1 + fold_right Z.max 0 (map id db).

(** [db.session.add(rule); db.session.commit()]: the row with the id of
    [rule] is updated, or [rule] is inserted when it is new. *)
Definition save (is_new : bool) (rule : @AutoFundRule F) (db : table)
  : table :=
  if is_new then db ++ [rule]
  else map (fun row => if id row =? id rule then rule else row) db.

Definition settings_saved : @notification F :=
  {| n_message := MsgText "Auto-Fund Agent settings saved!"; n_type := None |}.

(** What a request leaves behind: the table, the notifications broadcast and
    the response, or the exception that escapes the route (a 500). *)
Record served (D : Type) : Type := Served {
  sv_db : table;
  sv_emitted : list (@notification F);
  sv_response : outcome (response D)
}.
Arguments Served {D} sv_db sv_emitted sv_response.
Arguments sv_db {D} s.
Arguments sv_emitted {D} s.
Arguments sv_response {D} s.

(** manage_autofund_agent, GET: [address] is [request.args.get('address')]. *)
Definition manage_autofund_agent_get (address : option string) (db : table)
  : served (rule_view F) :=
  match address with
  | None => Served db [] (Returned (Failure 400 "Address required."))
  | Some a =>
      if String.eqb a "" then
        Served db [] (Returned (Failure 400 "Address required."))
      else
        match first_rule a db with
        | Some rule =>
            Served db []
              (Returned
                 (Success {| rv_max_fund_amount := max_fund_amount rule;
                             rv_min_savings_balance :=
                               min_savings_balance rule;
                             rv_is_active := is_active rule |}))
        | None => Served db [] (Returned (Failure 200 "No rule found"))
        end
  end.

(** manage_autofund_agent, POST.  A conversion that raises escapes the route
    before the commit, and the table stays as it was.  SQLite stores a NaN as
    NULL, which the two amount columns (nullable=False, lines 59-60) refuse:
    with a NaN amount [db.session.commit()] raises IntegrityError, for a new
    row and for an update alike, so nothing is written and the notification
    of line 336 is not reached. *)
Definition manage_autofund_agent_post (data : autofund_request F)
    (db : table) : served string :=
  match rq_address data with
  | None => Served db [] (Returned (Failure 400 "Address required."))
  | Some address =>
      if String.eqb address "" then
        Served db [] (Returned (Failure 400 "Address required."))
      else
        let found := first_rule address db in
        let max_fund_value := get_or_none (rq_max_fund_amount data) in
        let min_savings_value := get_or_none (rq_min_savings_balance data) in
        match float_or_zero max_fund_value with
        | Raised e => Served db [] (Raised e)
        | Returned max_fund =>
            match float_or_zero min_savings_value with
            | Raised e => Served db [] (Raised e)
            | Returned min_savings =>
                let active :=
                  truthy (match rq_is_active data with
                          | Some v => v
                          | None => JBool false
                          end) in
                let rule :=
                  {| id := match found with
                           | Some old => id old
                           | None => next_id db
                           end;
                     user_address := address;
                     max_fund_amount := max_fund;
                     min_savings_balance := min_savings;
                     is_active := active |} in
                if (f_is_nan max_fund || f_is_nan min_savings)%bool then
                  Served db [] (Raised "IntegrityError"%string)
                else
                  Served
                    (save (match found with Some _ => false | None => true end)
                          rule db)
                    [settings_saved]
                    (Returned (Success "Rule saved."%string))
            end
        end
  end.

(** The table keeps its two uniqueness constraints: the primary key and
    [unique=True] on user_address. *)
Definition well_keyed (db : table) : Prop :=
  NoDup (map id db) /\ NoDup (map user_address db).

End Api.

Arguments Served {F D} sv_db sv_emitted sv_response.
Arguments sv_db {F D} s.
Arguments sv_emitted {F D} s.
Arguments sv_response {F D} s.

(** ** A world that answers from a table *)

(** Ether amounts as exact rationals.  On whole numbers of ether below 2^53,
    which is all the scenarios below use, binary64 computes the same values. *)
Definition MAX_WEI : Z := 2 ^ 256 - 1.

Definition in_wei_range (n : Z) : bool := ((0 <=? n) && (n <=? MAX_WEI))%bool.

Definition exact_from_wei (n : Z) : outcome Q :=
  if in_wei_range n then Returned (Qmake n (10 ^ 18)%positive)
  else Raised "ValueError"%string.

Definition exact_to_wei (x : Q) : outcome Z :=
  let n := Z.quot (Qnum x * 10 ^ 18) (Zpos (Qden x)) in
  if in_wei_range n then Returned n else Raised "ValueError"%string.

#[export] Instance ExactEther : EtherOps Q := {
  from_wei := exact_from_wei;
  to_wei := exact_to_wei;
  f_lt := fun a b => negb (Qle_bool b a);
  f_ge := fun a b => Qle_bool b a;
  f_pos := fun a => negb (Qle_bool a 0)
}.

(** Ether amounts as binary64 floats.  [float(w3.from_wei(n, 'ether'))] is
    the quotient n / 10^18 rounded once to the nearest float, ties to even;
    the comparisons are those of IEEE 754.  [w3.to_wei] goes through the
    decimal representation of the float and is left as a parameter. *)
Definition b64_of_ratio (n : Z) (d : positive) : spec_float :=
  match n with
  | Z0 => S754_zero false
  | Zpos p => SFdiv 53 1024 (S754_finite false p 0) (S754_finite false d 0)
  | Zneg p => SFdiv 53 1024 (S754_finite true p 0) (S754_finite false d 0)
  end.

Definition b64_from_wei (n : Z) : outcome spec_float :=
  if in_wei_range n then Returned (b64_of_ratio n (10 ^ 18))
  else Raised "ValueError"%string.

Definition Binary64Ether (web3_to_wei : spec_float -> outcome Z)
  : EtherOps spec_float := {|
  from_wei := b64_from_wei;
  to_wei := web3_to_wei;
  f_lt := SFltb;
  f_ge := fun a b => SFleb b a;
  f_pos := fun a => SFltb (S754_zero false) a
|}.

(** The floats 2.0 and 1000.0. *)
Definition b64_two : spec_float := S754_finite false 4503599627370496 (-51).
Definition b64_thousand : spec_float :=
  S754_finite false 8796093022208000 (-43).

Record Scenario : Type := {
  sc_rules : outcome (list (@AutoFundRule Q));
  sc_loan : Z -> outcome LoanData;
  sc_member : string -> outcome MemberData;
  sc_total_loans : outcome Z;
  sc_installment : Z -> Z -> outcome InstallmentData;
  sc_receipt : Tx -> outcome Z;
  sc_emit : @notification Q -> outcome unit;
  sc_loan_requests : outcome (list LoanRequestedArgs);
  sc_now : Q
}.

Definition scenario_env (s : Scenario) (X : Type) (c : @call Q X) (w : unit)
  : outcome X * unit :=
  (match c in call X return outcome X with
   | QueryActiveRules => sc_rules s
   | GetLoan i => sc_loan s i
   | GetMember a => sc_member s a
   | GetTotalLoans => sc_total_loans s
   | GetInstallment i idx => sc_installment s i idx
   | GetTransactionCount => Returned 7
   | GasPrice => Returned 20
   | BuildTransaction _ => Returned tt
   | SignTransaction _ => Returned tt
   | SendRawTransaction _ => Returned 4242
   | WaitForTransactionReceipt tx _ => sc_receipt s tx
   | Emit n => sc_emit s n
   | GenerateContent => Raised "unavailable"%string
   | CreateFilter _ => Returned tt
   | NewLoanRequested => sc_loan_requests s
   | NewApplications => Returned []
   | NewLoanFunded => Returned []
   | NewLoanDisbursed => Returned []
   end, w).

Definition ether (n : Z) : Z := n * 10 ^ 18.

Definition member_with (savings : Z) : MemberData :=
  {| m_isActive := true; m_position1 := 0; totalSavings := savings;
     amountLentOut := 0; lockedCollateral := 0; availableSavings := savings |}.

Definition loan_of (who : string) (requested funded : Z) : LoanData :=
  {| borrower := who; amountRequested := requested; amountFunded := funded;
     collateralLocked := 0; totalInterest := 0; isActive := false;
     isDefaulted := false; nextInstallmentIndex := 0; createdAt := 0 |}.

Definition running_loan (next_idx : Z) (defaulted : bool) : LoanData :=
  {| borrower := "0xb0"%string; amountRequested := ether 100;
     amountFunded := ether 100; collateralLocked := 0; totalInterest := 0;
     isActive := true; isDefaulted := defaulted;
     nextInstallmentIndex := next_idx; createdAt := 0 |}.

Definition installment_due (due : Z) : InstallmentData :=
  {| dueDate := due; amountDue := ether 10; lateFees := 0; isPaid := false |}.

Definition rule_of (who : string) (max_fund min_savings : Z)
  : @AutoFundRule Q :=
  {| id := 1; user_address := who; max_fund_amount := inject_Z max_fund;
     min_savings_balance := inject_Z min_savings; is_active := true |}.

Definition alice : string := "0xA11ce".
Definition bob : string := "0xB0b".
Definition carol : string := "0xCa701".

(** Scenario A of the spec: a loan needing 100, rules (max 60, reserve 10) and
    (max 50, reserve 10), both lenders holding 200; every transaction is
    confirmed. *)
Definition scenario_A : Scenario :=
  {| sc_rules := Returned [rule_of alice 60 10; rule_of bob 50 10];
     sc_loan := fun _ => Returned (loan_of carol (ether 100) 0);
     sc_member := fun _ => Returned (member_with (ether 200));
     sc_total_loans := Returned 0;
     sc_installment := fun _ _ => Raised "no installment"%string;
     sc_receipt := fun _ => Returned 1;
     sc_emit := fun _ => Returned tt;
     sc_loan_requests :=
       Returned [{| lr_loanId := 3; lr_borrower := carol |}];
     sc_now := 0%Q |}.

(** Scenario A with the socket to the notification server down: [sio.emit]
    raises BadNamespaceError. *)
Definition scenario_notifier_down : Scenario :=
  {| sc_rules := sc_rules scenario_A;
     sc_loan := sc_loan scenario_A;
     sc_member := sc_member scenario_A;
     sc_total_loans := sc_total_loans scenario_A;
     sc_installment := sc_installment scenario_A;
     sc_receipt := sc_receipt scenario_A;
     sc_emit := fun _ => Raised "BadNamespaceError"%string;
     sc_loan_requests := sc_loan_requests scenario_A;
     sc_now := sc_now scenario_A |}.

(** The notifier is down and the first rule alone covers the loan. *)
Definition scenario_notifier_down_full : Scenario :=
  {| sc_rules := Returned [rule_of alice 100 10; rule_of bob 50 10];
     sc_loan := sc_loan scenario_A;
     sc_member := sc_member scenario_A;
     sc_total_loans := sc_total_loans scenario_A;
     sc_installment := sc_installment scenario_A;
     sc_receipt := sc_receipt scenario_A;
     sc_emit := fun _ => Raised "BadNamespaceError"%string;
     sc_loan_requests := sc_loan_requests scenario_A;
     sc_now := sc_now scenario_A |}.

(** Scenario B of the spec: one rule, whose lender holds 5 against a reserve
    floor of 10. *)
Definition scenario_B : Scenario :=
  {| sc_rules := Returned [rule_of alice 60 10];
     sc_loan := sc_loan scenario_A;
     sc_member := fun _ => Returned (member_with (ether 5));
     sc_total_loans := sc_total_loans scenario_A;
     sc_installment := sc_installment scenario_A;
     sc_receipt := sc_receipt scenario_A;
     sc_emit := sc_emit scenario_A;
     sc_loan_requests := sc_loan_requests scenario_A;
     sc_now := sc_now scenario_A |}.

(** The read of the loan fails. *)
Definition scenario_loan_read_fails : Scenario :=
  {| sc_rules := sc_rules scenario_A;
     sc_loan := fun _ => Raised "ConnectionError"%string;
     sc_member := sc_member scenario_A;
     sc_total_loans := sc_total_loans scenario_A;
     sc_installment := sc_installment scenario_A;
     sc_receipt := sc_receipt scenario_A;
     sc_emit := sc_emit scenario_A;
     sc_loan_requests := sc_loan_requests scenario_A;
     sc_now := sc_now scenario_A |}.

(** Scenario A with a first rule that covers the whole loan. *)
Definition scenario_full_cover : Scenario :=
  {| sc_rules := Returned [rule_of alice 100 10; rule_of bob 50 10];
     sc_loan := sc_loan scenario_A;
     sc_member := sc_member scenario_A;
     sc_total_loans := sc_total_loans scenario_A;
     sc_installment := sc_installment scenario_A;
     sc_receipt := sc_receipt scenario_A;
     sc_emit := sc_emit scenario_A;
     sc_loan_requests := sc_loan_requests scenario_A;
     sc_now := sc_now scenario_A |}.

(** Scenario D of the spec: every transaction reverts. *)
Definition scenario_D : Scenario :=
  {| sc_rules := sc_rules scenario_A;
     sc_loan := sc_loan scenario_A;
     sc_member := sc_member scenario_A;
     sc_total_loans := sc_total_loans scenario_A;
     sc_installment := sc_installment scenario_A;
     sc_receipt := fun _ => Returned 0;
     sc_emit := sc_emit scenario_A;
     sc_loan_requests := sc_loan_requests scenario_A;
     sc_now := sc_now scenario_A |}.

(** A fully funded loan. *)
Definition scenario_funded : Scenario :=
  {| sc_rules := sc_rules scenario_A;
     sc_loan := fun _ => Returned (loan_of carol (ether 100) (ether 100));
     sc_member := sc_member scenario_A;
     sc_total_loans := sc_total_loans scenario_A;
     sc_installment := sc_installment scenario_A;
     sc_receipt := sc_receipt scenario_A;
     sc_emit := sc_emit scenario_A;
     sc_loan_requests := sc_loan_requests scenario_A;
     sc_now := sc_now scenario_A |}.

(** The read of the first lender's member record fails. *)
Definition scenario_rpc_error : Scenario :=
  {| sc_rules := sc_rules scenario_A;
     sc_loan := sc_loan scenario_A;
     sc_member := fun a => if String.eqb a alice
                           then Raised "ConnectionError"%string
                           else Returned (member_with (ether 200));
     sc_total_loans := sc_total_loans scenario_A;
     sc_installment := sc_installment scenario_A;
     sc_receipt := sc_receipt scenario_A;
     sc_emit := sc_emit scenario_A;
     sc_loan_requests := sc_loan_requests scenario_A;
     sc_now := sc_now scenario_A |}.

(** Three running loans whose installments were due at 1000, read at
    time 6000000: all three are past the grace period. *)
Definition scenario_audit : Scenario :=
  {| sc_rules := Returned [];
     sc_loan := fun _ => Returned (running_loan 2 false);
     sc_member := fun _ => Raised "unused"%string;
     sc_total_loans := Returned 3;
     sc_installment := fun _ _ => Returned (installment_due 1000);
     sc_receipt := fun _ => Raised "unused"%string;
     sc_emit := fun _ => Returned tt;
     sc_loan_requests := Returned [];
     sc_now := inject_Z 6000000 |}.

(** The same ledger, but the read of loan 1 fails. *)
Definition scenario_audit_broken : Scenario :=
  {| sc_rules := sc_rules scenario_audit;
     sc_loan := fun i => if i =? 1 then Raised "ConnectionError"%string
                         else Returned (running_loan 2 false);
     sc_member := sc_member scenario_audit;
     sc_total_loans := sc_total_loans scenario_audit;
     sc_installment := sc_installment scenario_audit;
     sc_receipt := sc_receipt scenario_audit;
     sc_emit := sc_emit scenario_audit;
     sc_loan_requests := sc_loan_requests scenario_audit;
     sc_now := sc_now scenario_audit |}.

(** The poll of the first filter fails. *)
Definition scenario_poll_error : Scenario :=
  {| sc_rules := sc_rules scenario_A;
     sc_loan := sc_loan scenario_A;
     sc_member := sc_member scenario_A;
     sc_total_loans := sc_total_loans scenario_A;
     sc_installment := sc_installment scenario_A;
     sc_receipt := sc_receipt scenario_A;
     sc_emit := sc_emit scenario_A;
     sc_loan_requests := Raised "ConnectionError"%string;
     sc_now := sc_now scenario_A |}.

Definition scenario_clock (s : Scenario) (w : unit) : Q * unit := (sc_now s, w).

Definition run_auto_fund (s : Scenario) (event : LoanRequestedArgs)
  : run unit unit :=
  handle_auto_fund unit (scenario_env s) event tt.

Definition run_audit (s : Scenario) : run unit unit :=
  check_for_potential_defaults unit (scenario_env s) (scenario_clock s) tt.

Definition request_3 : LoanRequestedArgs :=
  {| lr_loanId := 3; lr_borrower := carol |}.

Definition run_rule (s : Scenario) (rule : @AutoFundRule Q) (needed : Z)
  : run unit (Z * flow) :=
  rule_iteration unit (scenario_env s) 3 carol rule needed tt.

Definition run_turns (s : Scenario) (n : nat) : run unit Q :=
  turns unit (scenario_env s) (fun _ w => w) (scenario_clock s) Qminus false
        n 0%Q tt.

Definition fund_tx_3 (amount : Z) : Tx :=
  {| tx_loan_id := 3; tx_amount := amount; tx_nonce := 7; tx_gasPrice := 20 |}.

Definition run_turn (s : Scenario) : run unit Q :=
  turn unit (scenario_env s) (fun _ w => w) (scenario_clock s) Qminus false
       0%Q tt.

(** The float side of the API on exact amounts: ints convert exactly, and
    the strings of these examples are not numbers. *)
Definition q_float_of_int (z : Z) : outcome Q := Returned (inject_Z z).
Definition q_float_of_string (s : string) : outcome Q :=
  Raised "ValueError"%string.
Definition q_nonzero (x : Q) : bool := negb (Qeq_bool x 0).
Definition q_is_nan (x : Q) : bool := false.

Definition demo_post (data : autofund_request Q) (db : @table Q)
  : served string :=
  manage_autofund_agent_post q_float_of_int q_float_of_string 0%Q q_nonzero
    q_is_nan data db.

(** A table with the rule of one user. *)
Definition demo_db : @table Q := [rule_of alice 60 10].

(** A new user switches the agent on. *)
Definition bob_request : autofund_request Q :=
  {| rq_address := Some bob;
     rq_max_fund_amount := Some (JInt 50);
     rq_min_savings_balance := Some (JInt 10);
     rq_is_active := Some (JBool true) |}.

(** A known user changes the maximum and sends no is_active key. *)
Definition alice_request : autofund_request Q :=
  {| rq_address := Some alice;
     rq_max_fund_amount := Some (JInt 80);
     rq_min_savings_balance := None;
     rq_is_active := None |}.

(** ** The same world with binary64 amounts *)

(** The float [float(n)] of a whole number. *)
Definition b64 (n : Z) : spec_float := b64_of_ratio n 1.


(** The value of a float that is a whole number from 0 to 2^53 - 1. *)
Definition b64_whole (x : spec_float) : option Z :=
  match x with
  | S754_zero _ => Some 0
  | S754_finite false m e =>
      if 0 <=? e then
        if Zpos m * 2 ^ e <? 2 ^ 53 then Some (Zpos m * 2 ^ e) else None
      else if Zpos m mod 2 ^ (- e) =? 0 then Some (Zpos m / 2 ^ (- e))
      else None
  | _ => None
  end.

(** [w3.to_wei(x, 'ether')] on whole numbers of ether.  web3 multiplies the
    Decimal of [str(x)] by 10^18; for a whole number below 2^53 the text is
    the number itself followed by ".0".  The other floats are not in this
    table. *)
Definition whole_to_wei (x : spec_float) : outcome Z :=
  match b64_whole x with
  | Some n => Returned (ether n)
  | None => Raised "not in the table"%string
  end.

Definition WholeEther : EtherOps spec_float := Binary64Ether whole_to_wei.

Definition b64_rule (who : string) (max_fund min_savings : Z)
  : @AutoFundRule spec_float :=
  {| id := 1; user_address := who; max_fund_amount := b64 max_fund;
     min_savings_balance := b64 min_savings; is_active := true |}.

(** A world of lenders who all have [savings] wei available, with one loan
    that needs [need] wei, where every transaction succeeds and the notifier
    works. *)
Record B64Scenario : Type := {
  bs_rules : list (@AutoFundRule spec_float);
  bs_need : Z;
  bs_savings : Z
}.

Definition b64_env (s : B64Scenario) (X : Type) (c : @call spec_float X)
    (w : unit) : outcome X * unit :=
  (match c in call X return outcome X with
   | QueryActiveRules => Returned (bs_rules s)
   | GetLoan _ => Returned (loan_of carol (bs_need s) 0)
   | GetMember _ => Returned (member_with (bs_savings s))
   | GetTotalLoans => Returned 0
   | GetInstallment _ _ => Raised "no installment"%string
   | GetTransactionCount => Returned 7
   | GasPrice => Returned 20
   | BuildTransaction _ => Returned tt
   | SignTransaction _ => Returned tt
   | SendRawTransaction _ => Returned 4242
   | WaitForTransactionReceipt _ _ => Returned 1
   | Emit _ => Returned tt
   | GenerateContent => Raised "unavailable"%string
   | CreateFilter _ => Returned tt
   | NewLoanRequested => Returned []
   | NewApplications => Returned []
   | NewLoanFunded => Returned []
   | NewLoanDisbursed => Returned []
   end, w).


Definition b64_run_auto_fund (s : B64Scenario) : run unit unit :=
  @handle_auto_fund spec_float WholeEther unit (b64_env s) request_3 tt.




(** Two lenders for a loan that needs 100 ether. *)
Definition scenario_two_lenders : B64Scenario :=
  {| bs_rules := [b64_rule alice 60 10; b64_rule bob 50 10];
     bs_need := ether 100; bs_savings := ether 200 |}.

(** * Properties *)

Section Facts.

Context {F : Type} {E : EtherOps F}.
Variable W : Type.
Variable env : forall X : Type, @call F X -> W -> outcome X * W.
Variable sleep : Z -> W -> W.
Variable clock : W -> Q * W.
Variable clock_sub : Q -> Q -> Q.
Variable model_configured : bool.

(** ** Observers and concatenation *)

Ltac by_entries t :=
  induction t as [|[X c r| |] t IH]; simpl; auto;
  destruct c; simpl; auto.

Lemma submitted_app (t1 t2 : @trace F) :
  submitted (t1 ++ t2) = submitted t1 ++ submitted t2.
Proof. by_entries t1. now rewrite IH. Qed.

Lemma confirmed_app (t1 t2 : @trace F) :
  confirmed (t1 ++ t2) = confirmed t1 ++ confirmed t2.
Proof.
  by_entries t1. destruct r; auto.
  destruct (a =? 1); simpl; now rewrite IH.
Qed.

Lemma emitted_app (t1 t2 : @trace F) :
  emitted (t1 ++ t2) = emitted t1 ++ emitted t2.
Proof. by_entries t1. now rewrite IH. Qed.

Lemma receipts_app (t1 t2 : @trace F) :
  receipts (t1 ++ t2) = receipts t1 ++ receipts t2.
Proof. by_entries t1. destruct r; auto. simpl. now rewrite IH. Qed.

Lemma loan_views_app (t1 t2 : @trace F) :
  loan_views (t1 ++ t2) = loan_views t1 ++ loan_views t2.
Proof. by_entries t1. destruct r; auto. simpl. now rewrite IH. Qed.

Lemma overdue_alerts_app (t1 t2 : @trace F) :
  overdue_alerts (t1 ++ t2) = overdue_alerts t1 ++ overdue_alerts t2.
Proof.
  by_entries t1. destruct n as [[] [[]|]]; simpl; auto. now rewrite IH.
Qed.

Lemma quiet_app (t1 t2 : @trace F) :
  quiet (t1 ++ t2) = (quiet t1 && quiet t2)%bool.
Proof. unfold quiet. apply forallb_app. Qed.

Lemma pacing_sleeps_app (t1 t2 : @trace F) :
  pacing_sleeps (t1 ++ t2) = (pacing_sleeps t1 + pacing_sleeps t2)%nat.
Proof. unfold pacing_sleeps. now rewrite filter_app, length_app. Qed.

Lemma sum_app (l1 l2 : list Z) : sum (l1 ++ l2) = sum l1 + sum l2.
Proof. induction l1; simpl; lia. Qed.

(** ** The monad *)

Lemma bind_returned {A B} (m : @M F W A) (k : A -> @M F W B) w a w1 t1 :
  m w = Run (Returned a) w1 t1 ->
  bind W m k w = Run (value (k a w1)) (final (k a w1)) (t1 ++ log (k a w1)).
Proof. intros H. unfold bind. rewrite H. now destruct (k a w1). Qed.

Lemma bind_raised {A B} (m : @M F W A) (k : A -> @M F W B) w e w1 t1 :
  m w = Run (Raised e) w1 t1 -> bind W m k w = Run (Raised e) w1 t1.
Proof. intros H. unfold bind. now rewrite H. Qed.

Lemma run_eta {A} (r : @run F W A) : r = Run (value r) (final r) (log r).
Proof. now destruct r. Qed.

(** One step of symbolic execution: split on the answer of the next call, of
    the next conversion or of the next test. *)
Ltac step :=
  match goal with
  | |- context [env ?X ?c ?w] =>
      let a := fresh "a" in let e := fresh "e" in let w' := fresh "w" in
      let Hc := fresh "Hcall" in
      destruct (env X c w) as [[a|e] w'] eqn:Hc
  | |- context [from_wei ?n] =>
      let Hc := fresh "Hconv" in destruct (from_wei n) eqn:Hc
  | |- context [to_wei ?x] =>
      let Hc := fresh "Hconv" in destruct (to_wei x) eqn:Hc
  | |- context [if ?b then _ else _] =>
      let Hb := fresh "Htest" in destruct b eqn:Hb
  end.

Ltac exec := repeat (cbn -[Z.sub Z.leb Z.eqb]; try step).

Ltac unfold_rule :=
  unfold rule_iteration, rule_body, try_except, bind, perform, lift, ret.

(** ** Auto-fund: rules that are skipped *)

Lemma own_loan_iteration loan_id borrower_address rule needed w :
  lower (user_address rule) = lower borrower_address ->
  rule_iteration W env loan_id borrower_address rule needed w
  = Run (Returned (needed, Continue)) w [].
Proof.
  intros H. unfold_rule. rewrite H, String.eqb_refl. reflexivity.
Qed.

(** C6: a rule whose userAddress is the borrower of the loan is skipped: its
    turn of the loop calls nothing, submits no transaction and leaves the
    amount needed as it was, whatever its other fields hold, and the loop goes
    on with the rules after it. *)
Theorem C6_own_loan_rule_skipped
    loan_id borrower_address rule rest needed w :
  user_address rule = borrower_address ->
  rule_iteration W env loan_id borrower_address rule needed w
  = Run (Returned (needed, Continue)) w []
  /\ submitted
       (log (rule_iteration W env loan_id borrower_address rule needed w)) = []
  /\ rules_loop W env loan_id borrower_address (rule :: rest) needed w
     = rules_loop W env loan_id borrower_address rest needed w.
Proof.
  intros H.
  assert (Hit := own_loan_iteration loan_id borrower_address rule needed w
                   (f_equal lower H)).
  split; [exact Hit|]. split; [now rewrite Hit|].
  cbn [rules_loop]. rewrite (bind_returned _ _ _ _ _ _ Hit). cbn.
  symmetry. apply run_eta.
Qed.

Lemma rule_iteration_never_raises loan_id borrower_address rule needed w :
  exists r,
    value (rule_iteration W env loan_id borrower_address rule needed w)
    = Returned r.
Proof. unfold_rule. exec; eauto. Qed.

Lemma loop_continue loan_id borrower_address rule rest needed w needed' :
  value (rule_iteration W env loan_id borrower_address rule needed w)
  = Returned (needed', Continue) ->
  rules_loop W env loan_id borrower_address (rule :: rest) needed w
  = let it := rule_iteration W env loan_id borrower_address rule needed w in
    let r := rules_loop W env loan_id borrower_address rest needed' (final it)
    in Run (value r) (final r) (log it ++ log r).
Proof.
  intros H. cbn [rules_loop].
  destruct (rule_iteration W env loan_id borrower_address rule needed w)
    as [v w1 t1] eqn:Hit.
  cbn in H. subst v. rewrite (bind_returned _ _ _ _ _ _ Hit). reflexivity.
Qed.

Lemma loop_break loan_id borrower_address rule rest needed w needed' :
  value (rule_iteration W env loan_id borrower_address rule needed w)
  = Returned (needed', Break) ->
  rules_loop W env loan_id borrower_address (rule :: rest) needed w
  = let it := rule_iteration W env loan_id borrower_address rule needed w in
    Run (Returned needed') (final it) (log it ++ []).
Proof.
  intros H. cbn [rules_loop].
  destruct (rule_iteration W env loan_id borrower_address rule needed w)
    as [v w1 t1] eqn:Hit.
  cbn in H. subst v. rewrite (bind_returned _ _ _ _ _ _ Hit). reflexivity.
Qed.

(** Every turn of the loop ends in one of two ways. *)
Lemma loop_unfold loan_id borrower_address rule rest needed w :
  let it := rule_iteration W env loan_id borrower_address rule needed w in
  exists needed',
    (value it = Returned (needed', Break)
     /\ rules_loop W env loan_id borrower_address (rule :: rest) needed w
        = Run (Returned needed') (final it) (log it ++ []))
    \/ (value it = Returned (needed', Continue)
        /\ rules_loop W env loan_id borrower_address (rule :: rest) needed w
           = let r := rules_loop W env loan_id borrower_address rest needed'
                        (final it)
             in Run (value r) (final r) (log it ++ log r)).
Proof.
  intros it.
  destruct (rule_iteration_never_raises loan_id borrower_address rule needed w)
    as [[needed' [|]] Hv]; exists needed'.
  - right. split; [exact Hv|]. now apply loop_continue.
  - left. split; [exact Hv|]. now apply loop_break.
Qed.

Lemma rule_iteration_loan_views loan_id borrower_address rule needed w :
  loan_views
    (log (rule_iteration W env loan_id borrower_address rule needed w)) = [].
Proof. unfold_rule. exec; reflexivity. Qed.

Lemma rules_loop_loan_views loan_id borrower_address rules :
  forall needed w,
    loan_views
      (log (rules_loop W env loan_id borrower_address rules needed w)) = [].
Proof.
  induction rules as [|rule rest IH]; intros needed w; [reflexivity|].
  destruct (loop_unfold loan_id borrower_address rule rest needed w)
    as [needed' [[_ ->]|[_ ->]]]; cbn [log];
    rewrite loan_views_app, rule_iteration_loan_views; [reflexivity|].
  apply IH.
Qed.

(** ** Auto-fund: a loan that is already funded *)

(** C4: when the LoanView that handle_auto_fund fetches for the loan of the
    event has amountFunded >= amountRequested, the handler submits no
    transaction. *)
Theorem C4_funded_loan_is_noop event w loan_data :
  In (lr_loanId event, loan_data)
     (loan_views (log (handle_auto_fund W env event w))) ->
  amountRequested loan_data <= amountFunded loan_data ->
  submitted (log (handle_auto_fund W env event w)) = [].
Proof.
  unfold handle_auto_fund, bind, perform, ret.
  destruct (env _ QueryActiveRules w) as [[[|rule rules]|e] w1]; cbn -[rules_loop];
    try reflexivity.
  remember (rule :: rules) as active_rules eqn:Hrules. clear Hrules.
  destruct (env _ (GetLoan (lr_loanId event)) w1) as [[d|e] w2]; cbn -[rules_loop];
    try reflexivity.
  destruct (amountRequested d - amountFunded d <=? 0) eqn:Hneed; cbn -[rules_loop];
    try reflexivity.
  assert (Hv := rules_loop_loan_views (lr_loanId event) (lr_borrower event)
                  active_rules (amountRequested d - amountFunded d) w2).
  destruct (rules_loop W env (lr_loanId event) (lr_borrower event)
              active_rules (amountRequested d - amountFunded d) w2)
    as [[v|e] w3 t3]; cbn -[rules_loop] in *;
    try rewrite app_nil_r; rewrite Hv;
    intros [Heq|[]] Hle; inversion Heq; subst; apply Z.leb_gt in Hneed; lia.
Qed.

(** ** Auto-fund: a rule whose processing raises *)

(** C7: when the processing of a rule raises, at any point, the exception is
    caught: the turn ends as a skip, with the amount needed unchanged, and the
    loop evaluates the rules that follow, from the world the failed rule
    left. *)
Theorem C7_rule_exception_skips_rule_only
    loan_id borrower_address rule rest needed w e :
  value (rule_body W env loan_id borrower_address rule needed w) = Raised e ->
  let failed := rule_body W env loan_id borrower_address rule needed w in
  rule_iteration W env loan_id borrower_address rule needed w
  = Run (Returned (needed, Continue)) (final failed) (log failed)
  /\ rules_loop W env loan_id borrower_address (rule :: rest) needed w
     = let r := rules_loop W env loan_id borrower_address rest needed
                  (final failed)
       in Run (value r) (final r) (log failed ++ log r).
Proof.
  intros H failed.
  assert (Hit : rule_iteration W env loan_id borrower_address rule needed w
                = Run (Returned (needed, Continue)) (final failed)
                      (log failed)).
  { unfold rule_iteration, try_except. subst failed.
    destruct (rule_body W env loan_id borrower_address rule needed w)
      as [v w1 t1].
    cbn in H. subst v. cbn. now rewrite app_nil_r. }
  split; [exact Hit|].
  rewrite (loop_continue _ _ _ _ _ _ needed) by now rewrite Hit.
  now rewrite Hit.
Qed.

(** ** Auto-fund: a transaction that reverts *)

(** C3: when the receipt of the transaction submitted for a rule comes back
    with a status other than 1, the handler hands the alert about the loan to
    the notifier, no funding is counted as confirmed, the amount needed is
    left as it was, and the loop does not halt: it evaluates the rules that
    follow with that same amount. *)
Theorem C3_reverted_transaction_alerts_and_continues
    loan_id borrower_address rule rest needed w tx status :
  In (tx, status)
     (receipts
        (log (rule_iteration W env loan_id borrower_address rule needed w))) ->
  status <> 1 ->
  let it := rule_iteration W env loan_id borrower_address rule needed w in
  In (failure_notification loan_id) (emitted (log it))
  /\ confirmed (log it) = []
  /\ value it = Returned (needed, Continue)
  /\ rules_loop W env loan_id borrower_address (rule :: rest) needed w
     = let r := rules_loop W env loan_id borrower_address rest needed
                  (final it)
       in Run (value r) (final r) (log it ++ log r).
Proof.
  intros Hin Hst it.
  assert (H3 : In (failure_notification loan_id) (emitted (log it))
               /\ confirmed (log it) = []
               /\ value it = Returned (needed, Continue)).
  { subst it. revert Hin. unfold_rule.
    exec; intros Hin; cbn in Hin;
      repeat match goal with
             | H : _ \/ _ |- _ => destruct H
             | H : False |- _ => destruct H
             | H : (_, _) = (_, _) |- _ => inversion H; subst; clear H
             end;
      try discriminate;
      try (exfalso;
           match goal with
           | H : (status =? 1) = true |- _ => apply Z.eqb_eq in H; congruence
           end);
      cbn; auto. }
  destruct H3 as (Ha & Hb & Hc).
  repeat split; auto.
  now apply loop_continue.
Qed.

(** ** Auto-fund: the amount and the reserve floor *)



(** ** The periodic auditor *)

Lemma in_range (n j : Z) : In j (range n) <-> 0 <= j < n.
Proof.
  unfold range. rewrite in_map_iff. split.
  - intros (k & <- & Hk). apply in_seq in Hk. lia.
  - intros H. exists (Z.to_nat j). split; [lia|]. apply in_seq. lia.
Qed.

Lemma range_NoDup (n : Z) : NoDup (range n).
Proof.
  unfold range. generalize (seq_NoDup (Z.to_nat n) 0).
  induction 1 as [|k l Hk _ IH]; cbn; constructor; auto.
  rewrite in_map_iff. intros (k' & Heq & Hin).
  apply Nat2Z.inj in Heq. now subst.
Qed.

Lemma range_split (n i : Z) :
  0 <= i < n -> exists later, range n = range i ++ i :: later.
Proof.
  intros H. unfold range.
  replace (Z.to_nat n)
    with (Z.to_nat i + S (Z.to_nat n - S (Z.to_nat i)))%nat by lia.
  rewrite seq_app, map_app. cbn [seq map Nat.add].
  rewrite Z2Nat.id by lia. eauto.
Qed.

(** The five ways the check of one loan can go. *)
Lemma check_loan_spec i w :
  let r := check_loan W env clock i w in
  (exists e, log r = [Entry (GetLoan i) (Raised e)] /\ value r = Raised e)
  \/ (exists d,
        log r = [Entry (GetLoan i) (Returned d)]
        /\ eligible d = false /\ value r = Returned tt)
  \/ (exists d e,
        log r = [Entry (GetLoan i) (Returned d);
                 Entry (GetInstallment i (nextInstallmentIndex d)) (Raised e)]
        /\ eligible d = true /\ value r = Raised e)
  \/ (exists d inst now,
        log r = [Entry (GetLoan i) (Returned d);
                 Entry (GetInstallment i (nextInstallmentIndex d))
                       (Returned inst);
                 TimeRead now]
        /\ eligible d = true /\ past_grace now (dueDate inst) = false
        /\ value r = Returned tt)
  \/ (exists d inst now o,
        log r = [Entry (GetLoan i) (Returned d);
                 Entry (GetInstallment i (nextInstallmentIndex d))
                       (Returned inst);
                 TimeRead now;
                 Entry (Emit (overdue_notification i)) o]
        /\ eligible d = true /\ past_grace now (dueDate inst) = true
        /\ value r = match o with
                     | Returned _ => Returned tt
                     | Raised e => Raised e
                     end).
Proof.
  unfold check_loan, bind, perform, time_time, ret.
  destruct (env _ (GetLoan i) w) as [[d|e] w1]; cbn; [|left; eauto].
  right. destruct (eligible d) eqn:Hel; cbn; [|left; eauto].
  right.
  destruct (env _ (GetInstallment i (nextInstallmentIndex d)) w1)
    as [[inst|e] w2]; cbn; [|left; eauto].
  right. destruct (clock w2) as [now w3]; cbn.
  destruct (past_grace now (dueDate inst)) eqn:Hpast; cbn;
    [|left; eauto 8].
  right.
  destruct (env _ (Emit (overdue_notification i)) w3) as [[[]|e] w4]; cbn.
  - exists d, inst, now, (Returned tt). auto.
  - exists d, inst, now, (Raised e). auto.
Qed.

Lemma scan_cons i rest w :
  scan_loans W env clock (i :: rest) w
  = match check_loan W env clock i w with
    | Run (Returned _) w1 t1 =>
        let r := scan_loans W env clock rest w1 in
        Run (value r) (final r) (t1 ++ log r)
    | Run (Raised e) w1 t1 => Run (Raised e) w1 t1
    end.
Proof.
  unfold scan_loans. cbn [for_each]. unfold bind at 1.
  destruct (check_loan W env clock i w) as [[[]|e] w1 t1]; [|reflexivity].
  now destruct (for_each W rest (check_loan W env clock) w1).
Qed.

Lemma scan_app before later :
  forall w,
    scan_loans W env clock (before ++ later) w
    = match scan_loans W env clock before w with
      | Run (Returned _) w1 t1 =>
          let r := scan_loans W env clock later w1 in
          Run (value r) (final r) (t1 ++ log r)
      | Run (Raised e) w1 t1 => Run (Raised e) w1 t1
      end.
Proof.
  induction before as [|i before IH]; intros w.
  - cbn [app].
    replace (scan_loans W env clock [] w)
      with (@Run F W unit (Returned tt) w []) by reflexivity.
    cbn. apply run_eta.
  - cbn [app]. rewrite !scan_cons.
    destruct (check_loan W env clock i w) as [[[]|e] w1 t1]; [|reflexivity].
    rewrite IH.
    destruct (scan_loans W env clock before w1) as [[[]|e] w2 t2]; cbn;
      [|reflexivity].
    now rewrite app_assoc.
Qed.

(** The trace of a scan never begins with an installment. *)
Lemma scan_head ids w i idx :
  due_view i idx (log (scan_loans W env clock ids w)) = None.
Proof.
  destruct ids as [|j rest]; [reflexivity|]. rewrite scan_cons.
  destruct (check_loan_spec j w)
    as [(e & Hl & Hv)|[(d & Hl & _ & Hv)|[(d & e & Hl & _ & Hv)
       |[(d & inst & now & Hl & _ & _ & Hv)
        |(d & inst & now & o & Hl & _ & _ & Hv)]]]];
    destruct (check_loan W env clock j w) as [v w1 t1];
    cbn in Hl, Hv; subst; try destruct o as [[]|e']; reflexivity.
Qed.

Ltac check_loan_cases i w :=
  let r := fresh "r" in
  let o := fresh "o" in
  destruct (check_loan_spec i w)
    as [(? & Hl & Hv)|[(? & Hl & ? & Hv)|[(? & ? & Hl & ? & Hv)
       |[(? & ? & ? & Hl & ? & ? & Hv)
        |(? & ? & ? & o & Hl & ? & ? & Hv)]]]];
  cbn zeta in Hl, Hv;
  destruct (check_loan W env clock i w) as [r ? ?];
  cbn [log value] in Hl, Hv; subst; try destruct o as [[]|?].

Lemma check_loan_alerts i w j :
  In j (overdue_alerts (log (check_loan W env clock i w))) -> j = i.
Proof.
  check_loan_cases i w; cbn; intros Hin;
    repeat (destruct Hin as [Hin|Hin]; auto); destruct Hin.
Qed.

Lemma check_loan_views i w j d :
  In (j, d) (loan_views (log (check_loan W env clock i w))) -> j = i.
Proof.
  check_loan_cases i w; cbn; intros Hin;
    repeat (destruct Hin as [Hin|Hin]; try (inversion Hin; subst; auto));
    destruct Hin.
Qed.

(** Alerts name only loans of the list scanned. *)
Lemma scan_alerts_incl ids :
  forall w j,
    In j (overdue_alerts (log (scan_loans W env clock ids w))) -> In j ids.
Proof.
  induction ids as [|i rest IH]; intros w j; [intros []|].
  rewrite scan_cons. generalize (check_loan_alerts i w j).
  destruct (check_loan W env clock i w) as [[[]|e] w1 t1]; cbn [log].
  - rewrite overdue_alerts_app, in_app_iff.
    intros Hi [H|H]; [left; symmetry; auto|right; eauto].
  - intros Hi H. left. symmetry. auto.
Qed.

(** Loan views are only of loans of the list scanned. *)
Lemma scan_views_incl ids :
  forall w j d,
    In (j, d) (loan_views (log (scan_loans W env clock ids w))) -> In j ids.
Proof.
  induction ids as [|i rest IH]; intros w j d; [intros []|].
  rewrite scan_cons. generalize (check_loan_views i w j d).
  destruct (check_loan W env clock i w) as [[[]|e] w1 t1]; cbn [log].
  - rewrite loan_views_app, in_app_iff.
    intros Hi [H|H]; [left; symmetry; auto|right; eauto].
  - intros Hi H. left. symmetry. auto.
Qed.

Lemma severely_overdue_read i d inst now :
  severely_overdue (i, d, Some (inst, now))
  = (eligible d && past_grace now (dueDate inst))%bool.
Proof. reflexivity. Qed.

(** A scan in which no call raises: every loan of the list is viewed once, in
    order, and the alerts are those of the views that meet the condition. *)
Lemma scan_quiet ids :
  forall w,
    let t := log (scan_loans W env clock ids w) in
    quiet t = true ->
    value (scan_loans W env clock ids w) = Returned tt
    /\ map view_id (audited t) = ids
    /\ overdue_alerts t = map view_id (filter severely_overdue (audited t))
    /\ emitted t = map overdue_notification (overdue_alerts t)
    /\ submitted t = []
    /\ (forall i d dv, In (i, d, dv) (audited t) -> eligible d = true ->
          exists inst now, dv = Some (inst, now)).
Proof.
  induction ids as [|i rest IH]; intros w t; subst t.
  - cbn. repeat split; auto. intros i d dv [].
  - rewrite scan_cons.
    check_loan_cases i w; cbn [log value final]; try discriminate;
      rewrite quiet_app; cbn [quiet forallb raised_entry negb andb];
      try discriminate; intros Hq;
      destruct (IH _ Hq) as (Hv & Hids & Hal & Hem & Hsub & Hdue);
      (split; [exact Hv|]);
      rewrite overdue_alerts_app, emitted_app, submitted_app;
      cbn [app audited]; rewrite ?scan_head;
      cbn [due_view audited]; rewrite ?Z.eqb_refl;
      cbn [andb filter map view_id fst];
      rewrite ?severely_overdue_read;
      repeat match goal with
             | H : eligible _ = _ |- _ => rewrite H
             | H : past_grace _ _ = _ |- _ => rewrite H
             end;
      cbn [andb severely_overdue map view_id fst overdue_alerts emitted
           submitted app overdue_notification];
      rewrite <- Hids at 2; rewrite <- Hal, <- Hem, Hsub;
      repeat split; auto;
      intros j dj dvj [Heq|Hin] Hel;
      try (inversion Heq; subst; eauto; congruence);
      eauto.
Qed.

Lemma count_selected (p : audit_view -> bool) (l : list audit_view) :
  NoDup (map view_id l) ->
  forall v, In v l ->
    count_occ Z.eq_dec (map view_id (filter p l)) (view_id v)
    = if p v then 1%nat else 0%nat.
Proof.
  induction l as [|a l IH]; intros Hnd v Hin; [destruct Hin|].
  cbn [map] in Hnd. apply NoDup_cons_iff in Hnd. destruct Hnd as [Hna Hnd].
  assert (Hout : count_occ Z.eq_dec (map view_id (filter p l)) (view_id a)
                 = 0%nat).
  { apply count_occ_not_In. intros H. apply Hna.
    apply in_map_iff in H. destruct H as (x & Hx & Hf).
    apply filter_In in Hf. apply in_map_iff. exists x. tauto. }
  destruct Hin as [->|Hin].
  - cbn [filter]. destruct (p v); cbn [map]; [|exact Hout].
    rewrite count_occ_cons_eq by reflexivity. now rewrite Hout.
  - assert (Hne : view_id a <> view_id v).
    { intros Heq. apply Hna. rewrite Heq. now apply in_map. }
    cbn [filter]. destruct (p a); cbn [map];
      [rewrite count_occ_cons_neq by exact Hne|]; now apply IH.
Qed.

(** C8, for the invocations in which no call raises: in such an invocation of
    the auditor the loans 0 .. getTotalLoans()-1 are each viewed once; for each of them
    the number of overdue alerts naming it is 1 when what was read about it
    satisfies isActive && !isDefaulted && nextInstallmentIndex < 12 and
    now > dueTimestamp + 5616000, and 0 otherwise, in particular 0 when it is
    defaulted or its nextInstallmentIndex is 12 or more; nothing else is
    emitted and no transaction is submitted. *)
Theorem C8_auditor_alerts_once_per_overdue_loan w :
  let r := check_for_potential_defaults W env clock w in
  quiet (log r) = true ->
  exists total_loans w1,
    env _ GetTotalLoans w = (Returned total_loans, w1)
    /\ map view_id (audited (log r)) = range total_loans
    /\ (forall v, In v (audited (log r)) ->
          count_occ Z.eq_dec (overdue_alerts (log r)) (view_id v)
          = if severely_overdue v then 1%nat else 0%nat)
    /\ (forall i d dv, In (i, d, dv) (audited (log r)) ->
          isDefaulted d = true \/ 12 <= nextInstallmentIndex d ->
          count_occ Z.eq_dec (overdue_alerts (log r)) i = 0%nat)
    /\ (forall i d dv, In (i, d, dv) (audited (log r)) ->
          eligible d = true -> exists inst now, dv = Some (inst, now))
    /\ emitted (log r) = map overdue_notification (overdue_alerts (log r))
    /\ submitted (log r) = [].
Proof using Type.
  intros r. subst r.
  unfold check_for_potential_defaults, try_except, bind, perform, ret.
  destruct (env _ GetTotalLoans w) as [[total_loans|e] w1]; cbn;
    [|discriminate].
  intros Hq. exists total_loans, w1. split; [reflexivity|].
  assert (Hquiet :
            quiet (log (scan_loans W env clock (range total_loans) w1))
            = true).
  { destruct (scan_loans W env clock (range total_loans) w1)
      as [[[]|e] w2 t2]; cbn in Hq |- *; [exact Hq|].
    rewrite app_nil_r in Hq. exact Hq. }
  destruct (scan_quiet (range total_loans) w1 Hquiet)
    as (Hv & Hids & Hal & Hem & Hsub & Hdue).
  destruct (scan_loans W env clock (range total_loans) w1) as [v w2 t2].
  cbn in Hv. subst v. cbn in Hids, Hal, Hem, Hsub, Hdue |- *.
  assert (Hcount : forall v, In v (audited t2) ->
            count_occ Z.eq_dec (overdue_alerts t2) (view_id v)
            = if severely_overdue v then 1%nat else 0%nat).
  { intros v Hin. rewrite Hal. apply count_selected; [|exact Hin].
    rewrite Hids. apply range_NoDup. }
  repeat split; auto.
  intros i d dv Hin Hbad.
  generalize (Hcount _ Hin). cbn [view_id fst]. intros ->.
  destruct dv as [[inst now]|]; [|reflexivity].
  cbn. destruct Hbad as [->|Hbig].
  - now rewrite andb_false_r.
  - apply Z.ltb_ge in Hbig. rewrite Hbig. now rewrite andb_false_r.
Qed.

(** C10: the single try/except of the auditor covers the whole scan.  When
    the scan has gone through loans 0 .. i-1 and a contract read for loan i
    raises, the invocation ends there, normally: its trace is that of the
    earlier loans followed by the failed check, its alerts are the ones
    emitted for the earlier loans, all of them for indices below i, and no
    loan at an index above i is read at all. *)
Theorem C10_failed_read_aborts_the_scan w total_loans w1 i w2 t1 :
  env _ GetTotalLoans w = (Returned total_loans, w1) ->
  0 <= i < total_loans ->
  scan_loans W env clock (range i) w1 = Run (Returned tt) w2 t1 ->
  read_raised (log (check_loan W env clock i w2)) = true ->
  let r := check_for_potential_defaults W env clock w in
  value r = Returned tt
  /\ log r = Entry GetTotalLoans (Returned total_loans)
             :: t1 ++ log (check_loan W env clock i w2)
  /\ overdue_alerts (log r) = overdue_alerts t1
  /\ (forall j, In j (overdue_alerts (log r)) -> 0 <= j < i)
  /\ (forall j d, In (j, d) (loan_views (log r)) -> 0 <= j <= i).
Proof.
  intros Htotal Hi Hscan Hread r.
  assert (Halerts : forall j, In j (overdue_alerts t1) -> 0 <= j < i).
  { intros j Hin. apply in_range.
    apply (scan_alerts_incl (range i) w1). now rewrite Hscan. }
  assert (Hviews : forall j d, In (j, d) (loan_views t1) -> 0 <= j < i).
  { intros j d Hin. apply in_range.
    apply (scan_views_incl (range i) w1 j d). now rewrite Hscan. }
  assert (Hi_views : forall j d,
            In (j, d) (loan_views (log (check_loan W env clock i w2))) ->
            j = i) by apply check_loan_views.
  subst r.
  unfold check_for_potential_defaults, try_except, bind, perform, ret.
  rewrite Htotal.
  destruct (range_split total_loans i Hi) as [later ->].
  rewrite scan_app, Hscan. cbn zeta. rewrite scan_cons.
  revert Hread Hi_views.
  check_loan_cases i w2; cbn; try discriminate; intros _ Hi_views;
    rewrite ?app_nil_r, ?overdue_alerts_app, ?app_nil_r;
    cbn; rewrite ?app_nil_r;
    (split; [reflexivity|]; split; [reflexivity|];
     split; [reflexivity|]; split; [exact Halerts|];
     intros j d Hin; rewrite loan_views_app in Hin;
     apply in_app_iff in Hin; destruct Hin as [Hin|Hin];
     [apply Hviews in Hin; lia|apply (Hi_views j d) in Hin; lia]).
Qed.

(** ** The agent loop *)

Lemma sleepless_ret {A} (a : A) : sleepless W (@ret F W A a).
Proof. intros w. reflexivity. Qed.

Lemma sleepless_lift {A} (o : outcome A) : sleepless W (@lift F W A o).
Proof. intros w. reflexivity. Qed.

Lemma sleepless_perform {X} (c : call X) : sleepless W (perform W env c).
Proof. intros w. unfold perform. now destruct (env X c w). Qed.

Lemma sleepless_time_time : sleepless W (@time_time F W clock).
Proof. intros w. unfold time_time. now destruct (clock w). Qed.

Lemma sleepless_bind {A B} (m : @M F W A) (k : A -> @M F W B) :
  sleepless W m -> (forall a, sleepless W (k a)) -> sleepless W (bind W m k).
Proof.
  intros Hm Hk w. unfold bind. specialize (Hm w).
  destruct (m w) as [[a|e] w1 t1]; cbn [log value] in *; [|exact Hm].
  specialize (Hk a w1). destruct (k a w1) as [v w2 t2]. cbn [log value] in *.
  rewrite pacing_sleeps_app. lia.
Qed.

Lemma sleepless_try {A} (m : @M F W A) (h : exn -> @M F W A) :
  sleepless W m -> (forall e, sleepless W (h e)) ->
  sleepless W (try_except W m h).
Proof.
  intros Hm Hh w. unfold try_except. specialize (Hm w).
  destruct (m w) as [[a|e] w1 t1]; cbn [log value] in *; [exact Hm|].
  specialize (Hh e w1). destruct (h e w1) as [v w2 t2]. cbn [log value] in *.
  rewrite pacing_sleeps_app. lia.
Qed.

Lemma sleepless_for_each {A} (l : list A) (body : A -> @M F W unit) :
  (forall a, sleepless W (body a)) -> sleepless W (for_each W l body).
Proof.
  intros Hb. induction l as [|a l IH]; cbn [for_each].
  - apply sleepless_ret.
  - apply sleepless_bind; auto.
Qed.

Create HintDb sleepy.

Ltac sleepless_step :=
  first
    [ solve [auto with sleepy]
    | progress cbn zeta
    | apply sleepless_ret
    | apply sleepless_lift
    | apply sleepless_perform
    | apply sleepless_time_time
    | apply sleepless_bind; [|intros ?]
    | apply sleepless_try; [|intros ?]
    | apply sleepless_for_each; intros ?
    | match goal with
      | |- sleepless _ (if ?b then _ else _) => destruct b
      | |- sleepless _ (match ?x with _ => _ end) => destruct x
      end ].

Lemma sleepless_rules_loop loan_id borrower_address rules :
  forall needed,
    sleepless W (rules_loop W env loan_id borrower_address rules needed).
Proof.
  induction rules as [|rule rest IH]; intros needed; cbn [rules_loop].
  - apply sleepless_ret.
  - apply sleepless_bind; [|intros [n' []]; cbn; auto using sleepless_ret].
    unfold rule_iteration, rule_body. cbn zeta. repeat sleepless_step.
Qed.

#[local] Hint Resolve sleepless_rules_loop : sleepy.

Lemma sleepless_handle_auto_fund event :
  sleepless W (handle_auto_fund W env event).
Proof.
  unfold handle_auto_fund. cbn zeta.
  apply sleepless_bind; [apply sleepless_perform|]. intros [|rule rules].
  - apply sleepless_ret.
  - apply sleepless_bind; [apply sleepless_perform|]. intros loan_data.
    destruct (_ <=? 0); [apply sleepless_ret|].
    apply sleepless_bind; [apply sleepless_rules_loop|].
    intros _. apply sleepless_ret.
Qed.

Lemma sleepless_auditor :
  sleepless W (check_for_potential_defaults W env clock).
Proof.
  unfold check_for_potential_defaults, scan_loans, check_loan.
  repeat sleepless_step.
Qed.

#[local] Hint Resolve sleepless_handle_auto_fund sleepless_auditor : sleepy.

Lemma paced_tail {A} (a : A) :
  paced W (bind W (@time_sleep F W sleep 15) (fun _ => @ret F W A a)).
Proof. intros w. cbn. exists []. auto. Qed.

Lemma paced_bind {A B} (m : @M F W A) (k : A -> @M F W B) :
  sleepless W m -> (forall a, paced W (k a)) -> paced W (bind W m k).
Proof.
  intros Hm Hk w. unfold bind. specialize (Hm w).
  destruct (m w) as [[a|e] w1 t1]; cbn [log value] in *; [|exact Hm].
  specialize (Hk a w1). destruct (k a w1) as [[b|e] w2 t2]; cbn [log value] in *.
  - destruct Hk as (t & -> & Ht). exists (t1 ++ t).
    rewrite pacing_sleeps_app, app_assoc. split; [reflexivity|lia].
  - rewrite pacing_sleeps_app. lia.
Qed.

Lemma paced_turn_body last : paced W
  (turn_body W env sleep clock clock_sub model_configured last).
Proof.
  unfold turn_body.
  repeat first [apply paced_tail | apply paced_bind; [|intros ?]];
    unfold handle_new_application, handle_loan_funded, handle_loan_disbursed;
    repeat sleepless_step.
Qed.

Lemma turn_spec last w :
  let body := turn_body W env sleep clock clock_sub model_configured last w in
  let r := turn W env sleep clock clock_sub model_configured last w in
  exists last' t,
    value r = Returned last'
    /\ log r = t ++ [Slept 15]
    /\ pacing_sleeps t = 0%nat
    /\ (forall e, value body = Raised e -> last' = last /\ t = log body).
Proof.
  intros body r. subst body r. unfold turn, try_except.
  generalize (paced_turn_body last w).
  destruct (turn_body W env sleep clock clock_sub model_configured last w)
    as [[last'|e] w1 t1]; cbn.
  - intros (t & -> & Ht). exists last', t. repeat split; auto; discriminate.
  - intros Ht. exists last, t1. repeat split; auto.
Qed.

Lemma turns_spec n :
  forall last w,
    let r := turns W env sleep clock clock_sub model_configured n last w in
    (exists last', value r = Returned last') /\ pacing_sleeps (log r) = n.
Proof.
  induction n as [|n IH]; intros last w; cbn zeta.
  - cbn. eauto.
  - cbn [turns]. unfold bind.
    destruct (turn_spec last w) as (last' & t & Hv & Hl & Ht & _).
    destruct (turn W env sleep clock clock_sub model_configured last w)
      as [v w1 t1].
    cbn [value log] in Hv, Hl. subst v t1.
    destruct (IH last' w1) as [Hr Hn].
    destruct (turns W env sleep clock clock_sub model_configured n last' w1)
      as [v2 w2 t2].
    cbn [value log] in *. split; [exact Hr|].
    rewrite !pacing_sleeps_app, Ht, Hn. reflexivity.
Qed.

(** Once its filters are created, [listen_for_events] goes through any number
    of turns. *)
Lemma listen_for_events_runs n w w1 t1 :
  create_filters W env w = Run (Returned tt) w1 t1 ->
  let r :=
    listen_for_events W env sleep clock clock_sub model_configured n w in
  (exists last, value r = Returned last) /\ pacing_sleeps (log r) = n.
Proof.
  intros Hf r. subst r. unfold listen_for_events.
  assert (Hquiet : pacing_sleeps t1 = 0%nat).
  { assert (Hs : sleepless W (create_filters W env))
      by (unfold create_filters; repeat sleepless_step).
    specialize (Hs w). now rewrite Hf in Hs. }
  rewrite (bind_returned _ _ _ _ _ _ Hf). cbn [value log final].
  unfold bind, time_time. destruct (clock w1) as [now w2].
  destruct (turns_spec n now w2) as [Hv Hn].
  destruct (turns W env sleep clock clock_sub model_configured n now w2)
    as [v w3 t3].
  cbn [value log] in *. split; [exact Hv|].
  rewrite !pacing_sleeps_app, Hquiet, Hn. reflexivity.
Qed.

(** C9: a turn of the agent loop never raises.  Whatever the polls, the
    handlers and the auditor do, the turn returns, its last action is the
    15-second sleep and it is its only sleep; when the body raises, the turn
    is the body up to the exception followed by that sleep.  So the loop runs
    any number of turns: n turns return with n sleeps of 15 seconds. *)
Theorem C9_loop_survives_exceptions :
  (forall last w,
     let body :=
       turn_body W env sleep clock clock_sub model_configured last w in
     let r := turn W env sleep clock clock_sub model_configured last w in
     exists last' t,
       value r = Returned last'
       /\ log r = t ++ [Slept 15]
       /\ pacing_sleeps t = 0%nat
       /\ (forall e, value body = Raised e -> last' = last /\ t = log body))
  /\ (forall n last w,
        let r := turns W env sleep clock clock_sub model_configured n last w
        in (exists last', value r = Returned last')
           /\ pacing_sleeps (log r) = n).
Proof. exact (conj turn_spec turns_spec). Qed.

(** ** Auto-fund: the amount needed across the rules *)

Lemma emit_failed_app (t1 t2 : @trace F) :
  emit_failed (t1 ++ t2) = (emit_failed t1 || emit_failed t2)%bool.
Proof. by_entries t1. destruct r; auto. Qed.

(** One turn of the loop, seen from the amount needed.  Either nothing is
    confirmed and the amount is unchanged; or a funding of [a] is confirmed
    and the amount goes down by [a], the loop halting when it reaches 0; or a
    funding is confirmed, [sio.emit] raises, and the amount is unchanged. *)
Lemma rule_iteration_bookkeeping loan_id borrower_address rule needed w :
  let it := rule_iteration W env loan_id borrower_address rule needed w in
  (confirmed (log it) = [] /\ value it = Returned (needed, Continue))
  \/ (exists a x,
        confirmed (log it) = [a] /\ emit_failed (log it) = false
        /\ from_wei needed = Returned x
        /\ to_wei (py_min (max_fund_amount rule) x) = Returned a
        /\ value it
           = Returned (needed - a,
                       if needed - a <=? 0 then Break else Continue))
  \/ (exists a,
        confirmed (log it) = [a] /\ emit_failed (log it) = true
        /\ value it = Returned (needed, Continue)).
Proof.
  intros it. subst it. unfold_rule.
  exec; try discriminate; auto;
    try (right; right; eexists; repeat split; eauto; fail);
    right; left; do 2 eexists; repeat split; eauto;
    match goal with
    | H : (_ <=? 0) = _ |- _ => rewrite H
    end; reflexivity.
Qed.

(** When no notification fails and the conversions do not inflate, the
    fundings confirmed for a trigger add up to at most the amount needed. *)
Lemma confirmed_within_need_when_notified
    (Hconv : conversions_do_not_inflate) loan_id borrower_address rules :
  forall needed w,
    0 < needed ->
    let r := rules_loop W env loan_id borrower_address rules needed w in
    emit_failed (log r) = false ->
    exists needed',
      value r = Returned needed' /\ 0 <= needed'
      /\ sum (confirmed (log r)) = needed - needed'.
Proof.
  induction rules as [|rule rest IH]; intros needed w Hpos; cbn zeta.
  - cbn. intros _. exists needed. repeat split; lia.
  - destruct (rule_iteration_bookkeeping loan_id borrower_address rule
                needed w)
      as [(Hc & Hv)|[(a & x & Hc & He & Hx & Ha & Hv)|(a & Hc & He & Hv)]].
    + rewrite (loop_continue _ _ _ _ _ _ _ Hv). cbn [log value].
      rewrite emit_failed_app, confirmed_app, Hc. intros Hf.
      apply orb_false_elim in Hf. destruct Hf as [_ Hf].
      destruct (IH needed _ Hpos Hf) as (n' & Hv' & Hn' & Hs).
      exists n'. cbn [app]. auto.
    + assert (a <= needed) by exact (Hconv _ _ _ _ Hx Ha).
      destruct (needed - a <=? 0) eqn:Hdone.
      * rewrite (loop_break _ _ _ _ _ _ _ Hv). cbn [log value].
        rewrite app_nil_r, Hc. intros _. exists (needed - a).
        cbn. repeat split; lia.
      * apply Z.leb_gt in Hdone.
        rewrite (loop_continue _ _ _ _ _ _ _ Hv). cbn [log value].
        rewrite emit_failed_app, confirmed_app, sum_app, Hc. intros Hf.
        apply orb_false_elim in Hf. destruct Hf as [_ Hf].
        destruct (IH (needed - a) _ Hdone Hf) as (n' & Hv' & Hn' & Hs).
        exists n'. cbn. repeat split; auto; lia.
    + rewrite (loop_continue _ _ _ _ _ _ _ Hv). cbn [log value].
      rewrite emit_failed_app, He. discriminate.
Qed.

(** * Further properties of the listener *)

(** ** What handle_auto_fund can raise, and what it can submit *)

Lemma rules_loop_never_raises loan_id borrower_address rules :
  forall needed w,
    exists needed',
      value (rules_loop W env loan_id borrower_address rules needed w)
      = Returned needed'.
Proof.
  induction rules as [|rule rest IH]; intros needed w.
  - cbn. eauto.
  - destruct (loop_unfold loan_id borrower_address rule rest needed w)
      as [needed' [[_ ->]|[_ ->]]]; cbn [value]; eauto.
Qed.

(** X1: handle_auto_fund raises only when the query of the rules raises, or
    when rules were found and the read of the loan raises; in both cases
    nothing else has been called.  Nothing that happens while the rules are
    processed makes the handler raise. *)
Theorem X1_auto_fund_raises_only_before_the_rules event w e :
  value (handle_auto_fund W env event w) = Raised e ->
  log (handle_auto_fund W env event w) = [Entry QueryActiveRules (Raised e)]
  \/ exists rule rules,
       log (handle_auto_fund W env event w)
       = [Entry QueryActiveRules (Returned (rule :: rules));
          Entry (GetLoan (lr_loanId event)) (Raised e)].
Proof.
  unfold handle_auto_fund, bind, perform, ret.
  destruct (env _ QueryActiveRules w) as [[[|rule rules]|e0] w1];
    cbn -[rules_loop]; try discriminate.
  - remember (rule :: rules) as active_rules eqn:Hrules.
    destruct (env _ (GetLoan (lr_loanId event)) w1) as [[d|e1] w2];
      cbn -[rules_loop].
    + destruct (amountRequested d - amountFunded d <=? 0);
        cbn -[rules_loop]; try discriminate.
      destruct (rules_loop_never_raises (lr_loanId event)
                  (lr_borrower event) active_rules
                  (amountRequested d - amountFunded d) w2) as [n' Hn'].
      destruct (rules_loop W env (lr_loanId event) (lr_borrower event)
                  active_rules (amountRequested d - amountFunded d) w2)
        as [v w3 t3].
      cbn in Hn'. subst v. cbn. discriminate.
    + intros H. injection H as <-. right. subst. eauto.
  - intros H. injection H as <-. now left.
Qed.

Lemma rule_iteration_submits loan_id borrower_address rule needed w :
  let it := rule_iteration W env loan_id borrower_address rule needed w in
  submitted (log it) = []
  \/ exists tx, submitted (log it) = [tx] /\ tx_loan_id tx = loan_id.
Proof.
  intros it. subst it. unfold_rule. exec; auto; right; eexists; split;
    reflexivity.
Qed.

Lemma rules_loop_submits loan_id borrower_address rules :
  forall needed w,
    let t := log (rules_loop W env loan_id borrower_address rules needed w) in
    (List.length (submitted t) <= List.length rules)%nat
    /\ Forall (fun tx => tx_loan_id tx = loan_id) (submitted t).
Proof.
  induction rules as [|rule rest IH]; intros needed w; cbn zeta.
  - cbn. auto.
  - assert (Hit := rule_iteration_submits loan_id borrower_address rule
                     needed w). cbn zeta in Hit.
    destruct (loop_unfold loan_id borrower_address rule rest needed w)
      as [needed' [[_ ->]|[_ ->]]]; cbn [log];
      rewrite submitted_app, length_app.
    + cbn [submitted List.length app]. rewrite app_nil_r, Nat.add_0_r.
      destruct Hit as [->|(tx & -> & Htx)]; cbn; split; auto; lia.
    + destruct (IH needed'
                  (final (rule_iteration W env loan_id borrower_address rule
                            needed w))) as [Hlen Hall].
      destruct Hit as [->|(tx & -> & Htx)]; cbn [List.length app];
        split; auto; lia.
Qed.

(** X2: handle_auto_fund submits at most one transaction per active rule,
    and every transaction it submits is a fundLoan for the loan of the
    event. *)
Theorem X2_auto_fund_submits_once_per_rule_for_the_event_loan event w :
  let t := log (handle_auto_fund W env event w) in
  Forall (fun tx => tx_loan_id tx = lr_loanId event) (submitted t)
  /\ (List.length (submitted t)
      <= match fst (env _ QueryActiveRules w) with
         | Returned active_rules => List.length active_rules
         | Raised _ => 0
         end)%nat.
Proof.
  unfold handle_auto_fund, bind, perform, ret.
  destruct (env _ QueryActiveRules w) as [[[|rule rules]|e0] w1];
    cbn -[rules_loop]; auto.
  remember (rule :: rules) as active_rules eqn:Hrules.
  destruct (env _ (GetLoan (lr_loanId event)) w1) as [[d|e1] w2];
    cbn -[rules_loop]; [|split; [constructor|lia]].
  destruct (amountRequested d - amountFunded d <=? 0); cbn -[rules_loop];
    [split; [constructor|lia]|].
  destruct (rules_loop_submits (lr_loanId event) (lr_borrower event)
              active_rules (amountRequested d - amountFunded d) w2)
    as [Hlen Hall].
  destruct (rules_loop W env (lr_loanId event) (lr_borrower event)
              active_rules (amountRequested d - amountFunded d) w2)
    as [[v|e] w3 t3]; cbn -[rules_loop] in *;
    rewrite ?app_nil_r; subst active_rules; auto.
Qed.

(** X3: a transaction is handed to send_raw_transaction only at the end of
    this unbroken sequence of calls: the transaction count of the agent is
    read and is the nonce of the transaction, the gas price is read and is
    its gas price, the transaction is built, then signed, then sent. *)
Theorem X3_submission_follows_fresh_nonce
    loan_id borrower_address rule needed w tx :
  In tx (submitted
           (log (rule_iteration W env loan_id borrower_address rule needed
                   w))) ->
  exists before r after,
    log (rule_iteration W env loan_id borrower_address rule needed w)
    = before
      ++ [Entry GetTransactionCount (Returned (tx_nonce tx));
          Entry GasPrice (Returned (tx_gasPrice tx));
          Entry (BuildTransaction tx) (Returned tt);
          Entry (SignTransaction tx) (Returned tt);
          Entry (SendRawTransaction tx) r]
      ++ after.
Proof.
  unfold_rule.
  exec; intros Hin; cbn in Hin;
    repeat match goal with
           | H : _ \/ _ |- _ => destruct H
           | H : False |- _ => destruct H
           end;
    subst; cbn;
    repeat match goal with
           | u : unit |- _ => destruct u
           end;
    eexists [_], _, _; cbn; reflexivity.
Qed.

(** X4: a funding of [a] that is confirmed and notified ends the loop when it
    covers the amount needed: the rules after it are not touched.  When it
    does not, the loop goes on to the next rule with the amount needed
    reduced by [a]. *)
Theorem X4_loop_halts_once_funded
    loan_id borrower_address rule rest needed w a :
  let it := rule_iteration W env loan_id borrower_address rule needed w in
  let r := rules_loop W env loan_id borrower_address (rule :: rest) needed w
  in
  confirmed (log it) = [a] ->
  emit_failed (log it) = false ->
  (needed <= a ->
   value r = Returned (needed - a) /\ log r = log it /\ final r = final it)
  /\ (a < needed ->
      let later := rules_loop W env loan_id borrower_address rest
                     (needed - a) (final it) in
      value r = value later /\ log r = log it ++ log later
      /\ final r = final later).
Proof.
  intros it r Hc He. subst r.
  destruct (rule_iteration_bookkeeping loan_id borrower_address rule needed w)
    as [(Hc' & _)|[(a' & x & Hc' & _ & _ & _ & Hv)|(a' & _ & He' & _)]];
    fold it in Hc', Hv || fold it in Hc' || fold it in He'.
  - rewrite Hc in Hc'. discriminate.
  - rewrite Hc in Hc'. injection Hc' as <-. split; intros Hcmp.
    + replace (needed - a <=? 0) with true in Hv
        by (symmetry; apply Z.leb_le; lia).
      rewrite (loop_break _ _ _ _ _ _ _ Hv). cbn.
      now rewrite app_nil_r.
    + replace (needed - a <=? 0) with false in Hv
        by (symmetry; apply Z.leb_gt; lia).
      rewrite (loop_continue _ _ _ _ _ _ _ Hv). cbn. auto.
  - fold it in He'. congruence.
Qed.

(** ** The auditor, in every invocation *)

Lemma installment_reads_app (t1 t2 : @trace F) :
  installment_reads (t1 ++ t2) = installment_reads t1 ++ installment_reads t2.
Proof. by_entries t1. now rewrite IH. Qed.

Lemma check_loan_observed i w :
  let t := log (check_loan W env clock i w) in
  submitted t = []
  /\ emitted t = map overdue_notification (overdue_alerts t)
  /\ (overdue_alerts t = [] \/ overdue_alerts t = [i])
  /\ (forall j idx, In (j, idx) (installment_reads t) ->
        exists d, In (j, d) (loan_views t) /\ eligible d = true
                  /\ idx = nextInstallmentIndex d).
Proof.
  check_loan_cases i w; cbn; repeat split; auto;
    intros j idx Hin;
    repeat (destruct Hin as [Hin|Hin];
            [injection Hin as <- <-; eexists; split; [left; reflexivity|];
             auto|]);
    destruct Hin.
Qed.

Lemma scan_observed ids :
  NoDup ids ->
  forall w,
    let t := log (scan_loans W env clock ids w) in
    submitted t = []
    /\ emitted t = map overdue_notification (overdue_alerts t)
    /\ NoDup (overdue_alerts t)
    /\ (forall j idx, In (j, idx) (installment_reads t) ->
          exists d, In (j, d) (loan_views t) /\ eligible d = true
                    /\ idx = nextInstallmentIndex d).
Proof.
  induction 1 as [|i rest Hi Hnd IH]; intros w; cbn zeta.
  - cbn. repeat split; auto; [constructor|intros j idx []].
  - rewrite scan_cons.
    destruct (check_loan_observed i w) as (Hs & He & Ha & Hr).
    assert (Hin_rest := fun w1 => scan_alerts_incl rest w1 i).
    destruct (check_loan W env clock i w) as [[[]|e] w1 t1]; cbn [log] in *.
    + destruct (IH w1) as (Hs' & He' & Ha' & Hr').
      rewrite submitted_app, emitted_app, overdue_alerts_app,
        installment_reads_app, loan_views_app, map_app, Hs, Hs', He, He'.
      repeat split; auto.
      * destruct Ha as [->| ->]; cbn; auto.
        constructor; auto. intros Hin. apply Hi. now apply (Hin_rest w1).
      * intros j idx Hin. apply in_app_iff in Hin.
        destruct Hin as [Hin|Hin];
          [destruct (Hr _ _ Hin) as (d & Hd & Hel)
          |destruct (Hr' _ _ Hin) as (d & Hd & Hel)];
          exists d; rewrite in_app_iff; (split; [auto|exact Hel]).
    + repeat split; auto.
      destruct Ha as [->| ->]; repeat constructor. intros [].
Qed.

(** X5: in every invocation, whatever raises, the auditor returns normally,
    submits no transaction, emits nothing but overdue alerts, and alerts at
    most once about any loan. *)
Theorem X5_auditor_only_observes w :
  let r := check_for_potential_defaults W env clock w in
  value r = Returned tt
  /\ submitted (log r) = []
  /\ emitted (log r) = map overdue_notification (overdue_alerts (log r))
  /\ NoDup (overdue_alerts (log r)).
Proof.
  unfold check_for_potential_defaults, try_except, bind, perform, ret.
  destruct (env _ GetTotalLoans w) as [[total_loans|e] w1]; cbn;
    [|repeat split; auto; constructor].
  destruct (scan_observed (range total_loans) (range_NoDup total_loans) w1)
    as (Hs & He & Ha & _).
  destruct (scan_loans W env clock (range total_loans) w1)
    as [[[]|e] w2 t2]; cbn [log value final] in *; rewrite ?app_nil_r;
    repeat split; auto.
Qed.

(** X6: the auditor asks for an installment only of a loan it has just
    viewed as active, not defaulted and with nextInstallmentIndex below 12,
    and only for the installment at that index: it never asks for an
    installment index of 12 or more. *)
Theorem X6_auditor_reads_only_the_next_installment w i idx :
  In (i, idx)
     (installment_reads (log (check_for_potential_defaults W env clock w))) ->
  idx < 12
  /\ exists d,
       In (i, d) (loan_views (log (check_for_potential_defaults W env clock w)))
       /\ isActive d = true /\ isDefaulted d = false
       /\ idx = nextInstallmentIndex d.
Proof.
  unfold check_for_potential_defaults, try_except, bind, perform, ret.
  destruct (env _ GetTotalLoans w) as [[total_loans|e] w1]; cbn;
    [|intros []].
  destruct (scan_observed (range total_loans) (range_NoDup total_loans) w1)
    as (_ & _ & _ & Hr).
  destruct (scan_loans W env clock (range total_loans) w1)
    as [[[]|e] w2 t2]; cbn [log value final] in *; rewrite ?app_nil_r;
    intros Hin; destruct (Hr _ _ Hin) as (d & Hd & Hel & ->);
    unfold eligible in Hel;
    apply andb_prop in Hel; destruct Hel as [Hel Hlt];
    apply andb_prop in Hel; destruct Hel as [Hact Hdef];
    apply Z.ltb_lt in Hlt; apply negb_true_iff in Hdef;
    (split; [exact Hlt|]); exists d; auto.
Qed.

(** ** handle_new_application *)

(** X7: a new application is always announced, with or without the text
    model.  The handler calls sio.emit exactly once, with the generated text
    when the model is configured and answers, and with the fixed fallback
    text when it is not configured or raises; the handler raises only when
    sio.emit does, and it submits nothing. *)
Theorem X7_application_is_announced_with_fallback event w :
  let r := handle_new_application W env model_configured event w in
  exists text o,
    emitted (log r) = [{| n_message := MsgText text; n_type := None |}]
    /\ submitted (log r) = []
    /\ value r = o
    /\ In (Entry (Emit {| n_message := MsgText text; n_type := None |}) o)
          (log r)
    /\ (model_configured = false ->
        text = fallback_message
        /\ log r = [Entry (Emit {| n_message := MsgText text;
                                   n_type := None |}) o])
    /\ (model_configured = true ->
        match fst (env _ GenerateContent w) with
        | Returned generated => text = generated
        | Raised _ => text = fallback_message
        end).
Proof.
  unfold handle_new_application, try_except, bind, perform, lift, ret.
  destruct model_configured; cbn.
  - destruct (env _ GenerateContent w) as [[generated|e] w1]; cbn.
    + destruct (env _ (Emit _) w1) as [[[]|e] w2] eqn:Hemit; cbn;
        do 2 eexists; repeat split; auto; discriminate.
    + destruct (env _ (Emit _) w1) as [[[]|e'] w2] eqn:Hemit; cbn;
        do 2 eexists; repeat split; auto; discriminate.
  - destruct (env _ (Emit _) w) as [[[]|e'] w2] eqn:Hemit; cbn;
      do 2 eexists; repeat split; auto; discriminate.
Qed.

(** ** What a turn of the loop does *)

Lemma for_each_cons {A} (body : A -> @M F W unit) x l w :
  for_each W (x :: l) body w
  = match body x w with
    | Run (Returned _) w1 t1 =>
        let r := for_each W l body w1 in
        Run (value r) (final r) (t1 ++ log r)
    | Run (Raised e) w1 t1 => Run (Raised e) w1 t1
    end.
Proof.
  cbn [for_each]. unfold bind.
  destruct (body x w) as [[[]|e] w1 t1]; [|reflexivity].
  now destruct (for_each W l body w1).
Qed.

Lemma for_each_app {A} (body : A -> @M F W unit) before later :
  forall w,
    for_each W (before ++ later) body w
    = match for_each W before body w with
      | Run (Returned _) w1 t1 =>
          let r := for_each W later body w1 in
          Run (value r) (final r) (t1 ++ log r)
      | Run (Raised e) w1 t1 => Run (Raised e) w1 t1
      end.
Proof.
  induction before as [|x before IH]; intros w.
  - cbn [app].
    replace (for_each W [] body w)
      with (@Run F W unit (Returned tt) w []) by reflexivity.
    cbn. apply run_eta.
  - cbn [app]. rewrite !for_each_cons.
    destruct (body x w) as [[[]|e] w1 t1]; [|reflexivity].
    rewrite IH.
    destruct (for_each W before body w1) as [[[]|e] w2 t2]; cbn;
      [|reflexivity].
    now rewrite app_assoc.
Qed.

(** X8: loan requests are handled in the order polled, and an exception
    that escapes handle_auto_fund ends the turn on the spot.  The requests
    polled after the failing one are never handled, the other three filters
    are not polled, the auditor does not run; the turn sleeps its 15 seconds
    and leaves last_default_check as it was. *)
Theorem X8_failing_request_drops_the_rest_of_the_turn
    last w before event after w1 w2 t2 e :
  env _ NewLoanRequested w = (Returned (before ++ event :: after), w1) ->
  for_each W before (handle_auto_fund W env) w1 = Run (Returned tt) w2 t2 ->
  value (handle_auto_fund W env event w2) = Raised e ->
  let failed := handle_auto_fund W env event w2 in
  turn W env sleep clock clock_sub model_configured last w
  = Run (Returned last) (sleep 15 (final failed))
        (Entry NewLoanRequested (Returned (before ++ event :: after))
         :: t2 ++ log failed ++ [Slept 15]).
Proof.
  intros Hpoll Hbefore Hfail failed. subst failed.
  unfold turn, try_except, turn_body. unfold bind at 1. unfold perform at 1.
  rewrite Hpoll. unfold bind at 1. rewrite for_each_app, Hbefore.
  cbn zeta. rewrite for_each_cons.
  destruct (handle_auto_fund W env event w2) as [v w3 t3].
  cbn in Hfail. subst v. cbn.
  now rewrite <- app_assoc.
Qed.

Lemma count_entries_app p (t1 t2 : @trace F) :
  count_entries p (t1 ++ t2)
  = (count_entries p t1 + count_entries p t2)%nat.
Proof. unfold count_entries. now rewrite filter_app, length_app. Qed.

Lemma submitted_count (t : @trace F) :
  List.length (submitted t) = count_entries is_submission t.
Proof. unfold count_entries. by_entries t. Qed.

Lemma never_ret p {A} (a : A) : never W p (@ret F W A a).
Proof. intros w. reflexivity. Qed.

Lemma never_lift p {A} (o : outcome A) : never W p (@lift F W A o).
Proof. intros w. reflexivity. Qed.

Lemma never_perform p {X} (c : call X) :
  (forall r, p (Entry c r) = false) -> never W p (perform W env c).
Proof.
  intros Hp w. unfold perform. destruct (env X c w) as [r w1].
  unfold count_entries. cbn. now rewrite Hp.
Qed.

Lemma never_time_time p :
  (forall t, p (TimeRead t) = false) -> never W p (@time_time F W clock).
Proof.
  intros Hp w. unfold time_time. destruct (clock w) as [t w1].
  unfold count_entries. cbn. now rewrite Hp.
Qed.

Lemma never_time_sleep p secs :
  p (Slept secs) = false -> never W p (@time_sleep F W sleep secs).
Proof. intros Hp w. unfold count_entries. cbn. now rewrite Hp. Qed.

(** [k] is only asked about the values [m] can return. *)
Lemma never_bind_when p {A B} (m : @M F W A) (k : A -> @M F W B)
    (R : A -> Prop) :
  never W p m ->
  (forall w a, value (m w) = Returned a -> R a) ->
  (forall a, R a -> never W p (k a)) ->
  never W p (bind W m k).
Proof.
  intros Hm HR Hk w. unfold bind. specialize (Hm w). specialize (HR w).
  destruct (m w) as [[a|e] w1 t1]; cbn [log value] in *; [|exact Hm].
  specialize (Hk a (HR a eq_refl) w1). destruct (k a w1) as [v w2 t2].
  cbn [log] in *. rewrite count_entries_app. lia.
Qed.

Lemma never_bind p {A B} (m : @M F W A) (k : A -> @M F W B) :
  never W p m -> (forall a, never W p (k a)) -> never W p (bind W m k).
Proof.
  intros Hm Hk. apply (never_bind_when p m k (fun _ => True)); auto.
Qed.

Lemma never_try p {A} (m : @M F W A) (h : exn -> @M F W A) :
  never W p m -> (forall e, never W p (h e)) -> never W p (try_except W m h).
Proof.
  intros Hm Hh w. unfold try_except. specialize (Hm w).
  destruct (m w) as [[a|e] w1 t1]; cbn [log value] in *; [exact Hm|].
  specialize (Hh e w1). destruct (h e w1) as [v w2 t2]. cbn [log] in *.
  rewrite count_entries_app. lia.
Qed.

Lemma never_for_each p {A} (l : list A) (body : A -> @M F W unit) :
  (forall a, never W p (body a)) -> never W p (for_each W l body).
Proof.
  intros Hb. induction l as [|a l IH]; cbn [for_each].
  - apply never_ret.
  - apply never_bind; auto.
Qed.

Create HintDb quiet_calls.

Ltac never_step :=
  first
    [ solve [auto with quiet_calls]
    | progress cbn zeta
    | apply never_ret
    | apply never_lift
    | apply never_perform; intros ?; reflexivity
    | apply never_time_time; intros ?; reflexivity
    | apply never_time_sleep; reflexivity
    | apply never_bind; [|intros ?]
    | apply never_try; [|intros ?]
    | apply never_for_each; intros ?
    | match goal with
      | |- never _ _ (if ?b then _ else _) => destruct b
      | |- never _ _ (match ?x with _ => _ end) => destruct x
      end ].

Lemma auditor_never_submits :
  never W is_submission (check_for_potential_defaults W env clock).
Proof.
  unfold check_for_potential_defaults, scan_loans, check_loan.
  repeat never_step.
Qed.

Lemma application_never_submits event :
  never W is_submission (handle_new_application W env model_configured event).
Proof. unfold handle_new_application. repeat never_step. Qed.

Lemma loan_funded_never_submits event :
  never W is_submission (handle_loan_funded W env event).
Proof. unfold handle_loan_funded. repeat never_step. Qed.

Lemma loan_disbursed_never_submits event :
  never W is_submission (handle_loan_disbursed W env event).
Proof. unfold handle_loan_disbursed. repeat never_step. Qed.

#[local] Hint Resolve auditor_never_submits application_never_submits
  loan_funded_never_submits loan_disbursed_never_submits : quiet_calls.

(** X9: the agent sends transactions only in answer to loan requests.  In
    a world where the LoanRequested filter yields no entry, a turn of the
    loop submits no transaction, whatever the other events, the auditor and
    the clock do. *)
Theorem X9_no_loan_request_no_transaction last w :
  (forall w0 events w1,
     env _ NewLoanRequested w0 = (Returned events, w1) -> events = []) ->
  submitted (log (turn W env sleep clock clock_sub model_configured last w))
  = [].
Proof.
  intros Hnone. apply length_zero_iff_nil. rewrite submitted_count.
  revert w.
  change (never W is_submission
            (turn W env sleep clock clock_sub model_configured last)).
  unfold turn, turn_body.
  apply never_try; [|intros ?; repeat never_step].
  apply (never_bind_when _ _ _ (fun events => events = [])).
  - repeat never_step.
  - intros w events. unfold perform.
    destruct (env _ NewLoanRequested w) as [r w1] eqn:Hpoll. cbn.
    intros ->. now apply (Hnone w events w1).
  - intros events ->. repeat never_step.
Qed.

Lemma rules_loop_never_audits loan_id borrower_address rules :
  forall needed,
    never W is_audit_start
      (rules_loop W env loan_id borrower_address rules needed).
Proof.
  induction rules as [|rule rest IH]; intros needed; cbn [rules_loop].
  - apply never_ret.
  - apply never_bind; [|intros [n' []]; cbn; auto using never_ret].
    unfold rule_iteration, rule_body. cbn zeta. repeat never_step.
Qed.

#[local] Hint Resolve rules_loop_never_audits : quiet_calls.

Lemma handlers_never_audit :
  (forall event, never W is_audit_start (handle_auto_fund W env event))
  /\ (forall event,
        never W is_audit_start
          (handle_new_application W env model_configured event))
  /\ (forall event, never W is_audit_start (handle_loan_funded W env event))
  /\ (forall event,
        never W is_audit_start (handle_loan_disbursed W env event)).
Proof.
  repeat split; intros event;
    unfold handle_auto_fund, handle_new_application, handle_loan_funded,
      handle_loan_disbursed;
    repeat never_step.
Qed.

(** X10: the auditor is not started before more than 300 seconds have
    passed.  As long as the clock reads no more than 300 seconds past
    last_default_check (by the float subtraction of the code), a turn makes
    no getTotalLoans call, whatever events arrive. *)
Theorem X10_auditor_waits_for_its_interval last w :
  (forall w0,
     Qle_bool (clock_sub (fst (clock w0)) last) (inject_Z 300) = true) ->
  count_entries is_audit_start
    (log (turn W env sleep clock clock_sub model_configured last w)) = 0%nat.
Proof.
  intros Hearly. revert w.
  change (never W is_audit_start
            (turn W env sleep clock clock_sub model_configured last)).
  destruct handlers_never_audit as (H1 & H2 & H3 & H4).
  unfold turn, turn_body.
  apply never_try; [|intros ?; repeat never_step].
  do 8 (apply never_bind; [repeat never_step; auto|intros ?]).
  apply (never_bind_when _ _ _
           (fun now => Qle_bool (clock_sub now last) (inject_Z 300) = true)).
  - repeat never_step.
  - intros w now. unfold time_time. specialize (Hearly w).
    destruct (clock w) as [t w1]. cbn in *. now intros [= <-].
  - intros now ->. cbn [negb]. repeat never_step.
Qed.

Lemma all_but_the_last_below_need loan_id borrower_address rules :
  forall needed w,
    0 < needed ->
    let r := rules_loop W env loan_id borrower_address rules needed w in
    emit_failed (log r) = false ->
    confirmed (log r) = []
    \/ sum (removelast (confirmed (log r))) < needed.
Proof.
  induction rules as [|rule rest IH]; intros needed w Hpos; cbn zeta.
  - cbn. auto.
  - destruct (rule_iteration_bookkeeping loan_id borrower_address rule
                needed w)
      as [(Hc & Hv)|[(a & x & Hc & He & Hx & Ha & Hv)|(a & Hc & He & Hv)]].
    + rewrite (loop_continue _ _ _ _ _ _ _ Hv). cbn [log value].
      rewrite emit_failed_app, confirmed_app, Hc. intros Hf.
      apply orb_false_elim in Hf. destruct Hf as [_ Hf].
      exact (IH needed _ Hpos Hf).
    + destruct (needed - a <=? 0) eqn:Hdone.
      * rewrite (loop_break _ _ _ _ _ _ _ Hv). cbn [log value].
        rewrite app_nil_r, Hc. intros _. right. cbn. exact Hpos.
      * apply Z.leb_gt in Hdone.
        rewrite (loop_continue _ _ _ _ _ _ _ Hv). cbn [log value].
        rewrite emit_failed_app, confirmed_app, Hc. intros Hf.
        apply orb_false_elim in Hf. destruct Hf as [_ Hf].
        specialize (IH (needed - a) _ Hdone Hf). cbn zeta in IH. right.
        destruct (confirmed
                    (log (rules_loop W env loan_id borrower_address rest
                            (needed - a)
                            (final (rule_iteration W env loan_id
                                      borrower_address rule needed w)))))
          as [|b later].
        -- cbn. exact Hpos.
        -- destruct IH as [IH|IH]; [discriminate|].
           change (removelast ([a] ++ b :: later))
             with (a :: removelast (b :: later)).
           change (sum (a :: removelast (b :: later)))
             with (a + sum (removelast (b :: later))).
           lia.
    + rewrite (loop_continue _ _ _ _ _ _ _ Hv). cbn [log value].
      rewrite emit_failed_app, He. discriminate.
Qed.

(** X17: with a working notifier only the last funding can pass the need.
    If no sio.emit of the handler raises, the handler stops funding as soon
    as the fundings confirmed reach the need: the fundings confirmed before
    the last one add up to less than amountRequested - amountFunded of the
    loan view the handler fetched.  This holds whatever the wei/ether
    conversions do; and when the handler fetched no loan view, nothing is
    confirmed. *)
Theorem X17_only_the_last_funding_can_pass_the_need event w :
  emit_failed (log (handle_auto_fund W env event w)) = false ->
  (forall loan_data,
     In (lr_loanId event, loan_data)
        (loan_views (log (handle_auto_fund W env event w))) ->
     confirmed (log (handle_auto_fund W env event w)) = []
     \/ sum (removelast (confirmed (log (handle_auto_fund W env event w))))
        < amountRequested loan_data - amountFunded loan_data)
  /\ (loan_views (log (handle_auto_fund W env event w)) = [] ->
      confirmed (log (handle_auto_fund W env event w)) = []).
Proof.
  unfold handle_auto_fund, bind, perform, ret.
  destruct (env _ QueryActiveRules w) as [[[|rule rules]|e] w1];
    cbn -[rules_loop]; try (intros _; split; [intros d []|auto]).
  remember (rule :: rules) as active_rules eqn:Hrules. clear Hrules.
  destruct (env _ (GetLoan (lr_loanId event)) w1) as [[d|e] w2];
    cbn -[rules_loop]; [|intros _; split; [intros d []|auto]].
  destruct (amountRequested d - amountFunded d <=? 0) eqn:Hneed;
    cbn -[rules_loop].
  - intros _. split; [auto|discriminate].
  - apply Z.leb_gt in Hneed.
    assert (Hloop := all_but_the_last_below_need
                       (lr_loanId event) (lr_borrower event) active_rules
                       (amountRequested d - amountFunded d) w2 Hneed).
    assert (Hviews := rules_loop_loan_views (lr_loanId event)
                        (lr_borrower event) active_rules
                        (amountRequested d - amountFunded d) w2).
    cbn zeta in Hloop.
    destruct (rules_loop W env (lr_loanId event) (lr_borrower event)
                active_rules (amountRequested d - amountFunded d) w2)
      as [[v|e] w3 t3]; cbn -[rules_loop] in *;
      rewrite ?app_nil_r; intros Hemit;
      (split; [|discriminate]);
      rewrite Hviews; intros d' [Heq|[]]; injection Heq as <-; auto.
Qed.

(** ** When last_default_check moves, and what stops the agent *)

Lemma keeps_audit_time_bind {A} last (m : @M F W A) (k : A -> @M F W Q) :
  never W is_audit_start m ->
  (forall a w, keeps_audit_time W last (k a w)) ->
  forall w, keeps_audit_time W last (bind W m k w).
Proof.
  intros Hm Hk w. unfold bind. specialize (Hm w).
  destruct (m w) as [[a|e] w1 t1]; cbn [log] in Hm; [|exact Hm].
  specialize (Hk a w1). destruct (k a w1) as [[last'|e] w2 t2];
    unfold keeps_audit_time in *; cbn [value log] in *;
    rewrite count_entries_app, Hm; cbn [Nat.add]; [|exact Hk].
  destruct Hk as [Hk|[Hone [before ->]]]; [now left|right].
  split; [exact Hone|]. exists (t1 ++ before). now rewrite app_assoc.
Qed.

Lemma auditor_starts_once w :
  let r := check_for_potential_defaults W env clock w in
  value r = Returned tt /\ count_entries is_audit_start (log r) = 1%nat.
Proof.
  unfold check_for_potential_defaults, try_except, bind, perform, ret.
  destruct (env _ GetTotalLoans w) as [[total_loans|e] w1]; cbn;
    [|split; reflexivity].
  assert (Hscan : never W is_audit_start
                    (scan_loans W env clock (range total_loans)))
    by (unfold scan_loans, check_loan; repeat never_step).
  specialize (Hscan w1).
  destruct (scan_loans W env clock (range total_loans) w1)
    as [[[]|e] w2 t2]; cbn [log value] in *; rewrite ?app_nil_r;
    unfold count_entries in *; cbn; rewrite Hscan; split; reflexivity.
Qed.

Lemma turn_body_keeps_audit_time last w :
  keeps_audit_time W last
    (turn_body W env sleep clock clock_sub model_configured last w).
Proof.
  destruct handlers_never_audit as (H1 & H2 & H3 & H4).
  revert w. unfold turn_body.
  do 8 (apply keeps_audit_time_bind; [repeat never_step; auto|intros ? ?]).
  apply keeps_audit_time_bind; [repeat never_step|].
  intros now w'.
  destruct (negb (Qle_bool (clock_sub now last) (inject_Z 300))).
  - unfold bind at 1 2.
    destruct (auditor_starts_once w') as [Hv Hone]. cbn zeta in Hv, Hone.
    destruct (check_for_potential_defaults W env clock w') as [v wa ta].
    cbn [value log] in Hv, Hone. subst v.
    unfold time_time. destruct (clock wa) as [t wb].
    unfold keeps_audit_time. cbn. right. split.
    + change (count_entries is_audit_start
                ((ta ++ [TimeRead t]) ++ [Slept 15]) = 1%nat).
      rewrite !count_entries_app, Hone. reflexivity.
    + exists ta. now rewrite <- app_assoc.
  - unfold keeps_audit_time. cbn. left. split; reflexivity.
Qed.

(** X18: last_default_check moves only with an audit.  A turn starts the
    auditor at most once.  When it starts none (the interval has not passed,
    or an exception ended the turn), last_default_check is left as it was;
    when it starts one, the auditor having returned, last_default_check
    becomes the reading of the clock taken right after it, which is the last
    thing the turn does before its sleep. *)
Theorem X18_last_default_check_moves_only_with_an_audit last w :
  let r := turn W env sleep clock clock_sub model_configured last w in
  exists last',
    value r = Returned last'
    /\ ((count_entries is_audit_start (log r) = 0%nat /\ last' = last)
        \/ (count_entries is_audit_start (log r) = 1%nat
            /\ exists before, log r = before ++ [TimeRead last'; Slept 15])).
Proof.
  cbn zeta. unfold turn, try_except.
  assert (Hbody := turn_body_keeps_audit_time last w).
  destruct (turn_body W env sleep clock clock_sub model_configured last w)
    as [[last'|e] w1 t1]; unfold keeps_audit_time in Hbody;
    cbn [value log] in *.
  - exists last'. split; [reflexivity|exact Hbody].
  - exists last. split; [reflexivity|]. left. split; [|reflexivity].
    unfold bind, time_sleep, ret. cbn [log app].
    rewrite count_entries_app, Hbody. reflexivity.
Qed.

(** X19: only the start can stop the agent.  The four filters are created
    outside the try of the loop: when one of the four create_filter calls
    raises, listen_for_events raises that exception without having polled
    anything or slept; when they all return, it goes through any number of
    turns, each with its sleep. *)
Theorem X19_only_the_startup_can_stop_the_agent n w :
  let setup := create_filters W env w in
  let r :=
    listen_for_events W env sleep clock clock_sub model_configured n w in
  match value setup with
  | Returned _ =>
      (exists last, value r = Returned last) /\ pacing_sleeps (log r) = n
  | Raised e =>
      value r = Raised e /\ log r = log setup
      /\ count_entries is_poll (log r) = 0%nat
      /\ pacing_sleeps (log r) = 0%nat
  end.
Proof.
  cbn zeta.
  assert (Hpoll : never W is_poll (create_filters W env))
    by (unfold create_filters; repeat never_step).
  assert (Hs : sleepless W (create_filters W env))
    by (unfold create_filters; repeat sleepless_step).
  specialize (Hpoll w). specialize (Hs w).
  destruct (create_filters W env w) as [[[]|e] w1 t1] eqn:Hf; cbn [value].
  - exact (listen_for_events_runs n w w1 t1 Hf).
  - unfold listen_for_events, bind. rewrite Hf. cbn [value log] in *.
    auto.
Qed.

(** ** Auto-fund: what is announced *)

Lemma rule_iteration_announces loan_id borrower_address rule needed w :
  let t := log (rule_iteration W env loan_id borrower_address rule needed w)
  in Forall2 (announces loan_id) (emitted t) (receipts t).
Proof.
  unfold_rule. exec; repeat constructor; unfold announces; cbn [snd];
    rewrite ?Htest; eauto;
    match goal with
    | H : (?s =? 1) = _ |- context [?s =? 1] => rewrite H
    end; eauto.
Qed.

Lemma rules_loop_announces loan_id borrower_address rules :
  forall needed w,
    let t := log (rules_loop W env loan_id borrower_address rules needed w) in
    Forall2 (announces loan_id) (emitted t) (receipts t).
Proof.
  induction rules as [|rule rest IH]; intros needed w; cbn zeta.
  - constructor.
  - assert (Hit := rule_iteration_announces loan_id borrower_address rule
                     needed w). cbn zeta in Hit.
    destruct (loop_unfold loan_id borrower_address rule rest needed w)
      as [needed' [[_ ->]|[_ ->]]]; cbn [log];
      rewrite emitted_app, receipts_app; apply Forall2_app; auto.
Qed.

(** X20: handle_auto_fund announces every receipt, and nothing else.  The
    notifications it hands to sio.emit are, in order, one for each receipt it
    obtained: the success message for the loan of the event when the status
    is 1, the failure alert for that loan when it is not. *)
Theorem X20_every_receipt_is_announced event w :
  let t := log (handle_auto_fund W env event w) in
  Forall2 (announces (lr_loanId event)) (emitted t) (receipts t).
Proof.
  unfold handle_auto_fund, bind, perform, ret.
  destruct (env _ QueryActiveRules w) as [[[|rule rules]|e0] w1];
    cbn -[rules_loop]; try constructor.
  remember (rule :: rules) as active_rules eqn:Hrules. clear Hrules.
  destruct (env _ (GetLoan (lr_loanId event)) w1) as [[d|e1] w2];
    cbn -[rules_loop]; [|constructor].
  destruct (amountRequested d - amountFunded d <=? 0); cbn -[rules_loop];
    [constructor|].
  assert (Hloop := rules_loop_announces (lr_loanId event) (lr_borrower event)
                     active_rules (amountRequested d - amountFunded d) w2).
  destruct (rules_loop W env (lr_loanId event) (lr_borrower event)
              active_rules (amountRequested d - amountFunded d) w2)
    as [[v|e] w3 t3]; cbn -[rules_loop] in *; rewrite ?app_nil_r;
    exact Hloop.
Qed.

End Facts.

(** * Properties of the query API *)

Section ApiFacts.

Context {F : Type} {E : EtherOps F}.
Variable W : Type.
Variable env : forall X : Type, @call F X -> W -> outcome X * W.
Variable to_checksum_address : string -> outcome string.
Variable is_address : string -> bool.
Variable float_of_int : Z -> outcome F.
Variable float_of_string : string -> outcome F.
Variable f_zero : F.
Variable f_nonzero : F -> bool.
Variable f_is_nan : F -> bool.

(** ** get_open_loans *)

Lemma open_loans_step_spec i w :
  let r := open_loans_step W env i w in
  exists o,
    log r = [Entry (GetLoan i) o]
    /\ match value r with
       | Returned items =>
           exists d, o = Returned d
                     /\ items = if is_open d then [open_loan_of i d] else []
       | Raised _ => True
       end.
Proof.
  unfold open_loans_step, bind, perform, lift, ret.
  destruct (env _ (GetLoan i) w) as [[d|e] w1]; cbn; [|eauto].
  exists (Returned d).
  destruct (is_open d) eqn:Ho; cbn;
    [|split; [reflexivity|]; exists d; rewrite Ho; auto].
  destruct (from_wei (amountRequested d)); cbn; [|auto].
  destruct (from_wei (amountFunded d)); cbn; [|auto].
  split; [reflexivity|]. exists d. rewrite Ho. auto.
Qed.

Lemma collect_cons {A} (body : Z -> @M F W (list A)) i rest acc w :
  collect W (i :: rest) body acc w
  = match body i w with
    | Run (Returned items) w1 t1 =>
        let r := collect W rest body (acc ++ items) w1 in
        Run (value r) (final r) (t1 ++ log r)
    | Run (Raised e) w1 t1 => Run (Raised e) w1 t1
    end.
Proof.
  cbn [collect]. unfold bind.
  destruct (body i w) as [[items|e] w1 t1]; [|reflexivity].
  now destruct (collect W rest body (acc ++ items) w1).
Qed.

Lemma collect_open_loans ids :
  forall acc w,
    let r := collect W ids (open_loans_step W env) acc w in
    submitted (log r) = [] /\ emitted (log r) = []
    /\ forall data,
         value r = Returned data ->
         map fst (loan_views (log r)) = ids
         /\ data
            = acc ++ map (fun v => open_loan_of (fst v) (snd v))
                         (filter listed_open (loan_views (log r))).
Proof.
  induction ids as [|i rest IH]; intros acc w; cbn zeta.
  - cbn. split; [reflexivity|]. split; [reflexivity|].
    intros data [= <-]. now rewrite app_nil_r.
  - rewrite collect_cons.
    destruct (open_loans_step_spec i w) as (o & Hl & Hv).
    destruct (open_loans_step W env i w) as [[items|e] w1 t1];
      cbn [log value] in *; subst t1.
    + destruct Hv as (d & -> & ->).
      destruct (IH (acc ++ (if is_open d then [open_loan_of i d] else []))
                  w1) as (Hs & He & Hd).
      cbn [app submitted emitted loan_views]. repeat split; auto.
      * cbn. f_equal. now apply (Hd data).
      * destruct (Hd data H) as [_ ->]. unfold listed_open at 2.
        cbn [filter snd fst]. rewrite <- app_assoc.
        destruct (is_open d); reflexivity.
    + destruct o; cbn; repeat split; auto; discriminate.
Qed.

Lemma collect_open_loans_log ids :
  forall acc w data,
    let r := collect W ids (open_loans_step W env) acc w in
    value r = Returned data -> log r = map viewed (loan_views (log r)).
Proof.
  induction ids as [|i rest IH]; intros acc w data; cbn zeta.
  - reflexivity.
  - rewrite collect_cons.
    destruct (open_loans_step_spec i w) as (o & Hl & Hv).
    destruct (open_loans_step W env i w) as [[items|e] w1 t1];
      cbn [log value] in *; subst t1; [|discriminate].
    destruct Hv as (d & -> & _). intros Hdata.
    cbn [app loan_views map]. unfold viewed at 1. cbn [fst snd].
    f_equal. now apply (IH _ w1 data).
Qed.

(** X11: /api/open-loans never raises and only reads.  When it answers with
    success, it has called getTotalLoans() and then getLoan(i) once for each
    i of 0 .. getTotalLoans()-1, in this order and nothing else, and the
    list returned is, in the order of the ids, exactly the viewed loans that
    are not active, not defaulted and funded below the amount requested,
    each with the borrower and amounts that were read.  When anything raises,
    the answer is a failure with status 200: no partial list is returned. *)
Theorem X11_open_loans_lists_exactly_the_open_loans w :
  let r := get_open_loans W env w in
  submitted (log r) = [] /\ emitted (log r) = []
  /\ match value r with
     | Returned (Success data) =>
         exists total_loans views,
           fst (env _ GetTotalLoans w) = Returned total_loans
           /\ log r
              = Entry GetTotalLoans (Returned total_loans) :: map viewed views
           /\ map fst views = range total_loans
           /\ data = map (fun v => open_loan_of (fst v) (snd v))
                         (filter listed_open views)
     | Returned (Failure status _) => status = 200
     | Raised _ => False
     end.
Proof.
  unfold get_open_loans, try_except, bind, perform, ret.
  destruct (env _ GetTotalLoans w) as [[total_loans|e] w1]; cbn;
    [|auto].
  destruct (collect_open_loans (range total_loans) [] w1) as (Hs & He & Hd).
  assert (Hlog := collect_open_loans_log (range total_loans) [] w1).
  destruct (collect W (range total_loans) (open_loans_step W env) [] w1)
    as [[data|e] w2 t2] eqn:Hc; cbn [log value final] in *;
    rewrite ?app_nil_r; cbn; repeat split; auto.
  destruct (Hd data eq_refl) as [Hids Hdata].
  exists total_loans, (loan_views t2).
  split; [reflexivity|]. split; [|split; assumption].
  f_equal. exact (Hlog data eq_refl).
Qed.

(** ** get_my_loans *)






(** ** The rule store behind /api/agent/autofund *)

Local Notation "'post'" :=
  (manage_autofund_agent_post float_of_int float_of_string f_zero f_nonzero
     f_is_nan).
Local Notation "'is_active_of' data" :=
  (truthy f_nonzero
     (match rq_is_active data with
      | Some v => v
      | None => JBool false
      end)) (at level 10, data at level 9).

Lemma first_rule_after_update address (db : @table F) old rule :
  first_rule address db = Some old ->
  user_address rule = address ->
  id rule = id old ->
  first_rule address (save false rule db) = Some rule.
Proof.
  unfold first_rule, save. intros Hfound Haddr Hid.
  assert (Hrule : (user_address rule =? address)%string = true)
    by now apply String.eqb_eq.
  induction db as [|row rest IH]; cbn in *; [discriminate|].
  destruct (user_address row =? address)%string eqn:Hrow.
  - injection Hfound as ->. rewrite Hid, Z.eqb_refl. now rewrite Hrule.
  - destruct (id row =? id rule); [now rewrite Hrule|].
    rewrite Hrow. auto.
Qed.

Lemma first_rule_after_insert address (db : @table F) rule :
  first_rule address db = None ->
  user_address rule = address ->
  first_rule address (save true rule db) = Some rule.
Proof.
  unfold first_rule, save. intros Hnone Haddr.
  induction db as [|row rest IH]; cbn in *.
  - now rewrite (proj2 (String.eqb_eq _ _) Haddr).
  - destruct (user_address row =? address)%string; [discriminate|auto].
Qed.

Lemma key_determines_row {A B} (f : A -> B) (l : list A) x y :
  NoDup (map f l) -> In x l -> In y l -> f x = f y -> x = y.
Proof.
  induction l as [|a l IH]; cbn; [intros _ []|].
  intros Hnd Hx Hy Hf. apply NoDup_cons_iff in Hnd. destruct Hnd as [Ha Hnd].
  destruct Hx as [->|Hx], Hy as [->|Hy]; auto.
  - exfalso. apply Ha. rewrite Hf. now apply in_map.
  - exfalso. apply Ha. rewrite <- Hf. now apply in_map.
Qed.

Lemma id_below_next (db : @table F) row : In row db -> id row < next_id db.
Proof.
  unfold next_id. induction db as [|a db IH]; cbn [fold_right map In];
    [intros []|].
  intros [->|Hin]; [lia|]. specialize (IH Hin). lia.
Qed.

Lemma save_update_keys (db : @table F) old rule :
  NoDup (map id db) -> In old db ->
  id rule = id old -> user_address rule = user_address old ->
  map id (save false rule db) = map id db
  /\ map user_address (save false rule db) = map user_address db.
Proof.
  intros Hnd Hold Hid Haddr. unfold save. rewrite !map_map. split.
  - apply map_ext. intros row.
    destruct (id row =? id rule) eqn:Heq; [|reflexivity].
    apply Z.eqb_eq in Heq. congruence.
  - apply map_ext_in. intros row Hrow.
    destruct (id row =? id rule) eqn:Heq; [|reflexivity].
    apply Z.eqb_eq in Heq.
    assert (row = old)
      by (apply (key_determines_row id db); auto; congruence).
    congruence.
Qed.

(** What a POST that goes through does to the table. *)
Lemma post_saves data (db : @table F) address max_fund min_savings :
  rq_address data = Some address ->
  address <> ""%string ->
  float_or_zero float_of_int float_of_string f_zero f_nonzero
    (get_or_none (rq_max_fund_amount data)) = Returned max_fund ->
  float_or_zero float_of_int float_of_string f_zero f_nonzero
    (get_or_none (rq_min_savings_balance data)) = Returned min_savings ->
  f_is_nan max_fund = false ->
  f_is_nan min_savings = false ->
  exists rule is_new,
    post data db
    = Served (save is_new rule db) [settings_saved]
             (Returned (Success "Rule saved."%string))
    /\ user_address rule = address
    /\ max_fund_amount rule = max_fund
    /\ min_savings_balance rule = min_savings
    /\ is_active rule = is_active_of data
    /\ match first_rule address db with
       | Some old => is_new = false /\ id rule = id old
       | None => is_new = true /\ id rule = next_id db
       end.
Proof.
  intros Haddr Hne Hmax Hmin Hx Hn. unfold manage_autofund_agent_post.
  rewrite Haddr. apply String.eqb_neq in Hne. rewrite Hne. cbn zeta.
  rewrite Hmax, Hmin, Hx, Hn. cbn [orb].
  destruct (first_rule address db); do 2 eexists;
    (split; [reflexivity|]); cbn; auto 10.
Qed.

Lemma saved_rule_is_found
    data (db : @table F) address max_fund min_savings :
  rq_address data = Some address ->
  address <> ""%string ->
  float_or_zero float_of_int float_of_string f_zero f_nonzero
    (get_or_none (rq_max_fund_amount data)) = Returned max_fund ->
  float_or_zero float_of_int float_of_string f_zero f_nonzero
    (get_or_none (rq_min_savings_balance data)) = Returned min_savings ->
  f_is_nan max_fund = false ->
  f_is_nan min_savings = false ->
  exists saved,
    first_rule address (sv_db (post data db)) = Some saved
    /\ user_address saved = address
    /\ max_fund_amount saved = max_fund
    /\ min_savings_balance saved = min_savings
    /\ is_active saved = is_active_of data.
Proof.
  intros Haddr Hne Hmax Hmin Hxn Hnn.
  destruct (post_saves data db address max_fund min_savings
              Haddr Hne Hmax Hmin Hxn Hnn)
    as (rule & is_new & -> & Hu & Hx & Hn & Ha & Hcase).
  exists rule. cbn [sv_db]. repeat split; auto.
  destruct (first_rule address db) as [old|] eqn:Hfound;
    destruct Hcase as [-> Hid].
  - now apply (first_rule_after_update address db old).
  - now apply first_rule_after_insert.
Qed.

(** X13: a rule saved through POST /api/agent/autofund is what GET shows for
    that address afterwards, whatever the table held: the two amounts after
    [float(value) if value else 0.0], neither of them a NaN (which the commit
    refuses), and is_active as the truth value of the key, false when the key
    is absent. *)
Theorem X13_saved_rule_is_read_back
    data (db : @table F) address max_fund min_savings :
  rq_address data = Some address ->
  address <> ""%string ->
  float_or_zero float_of_int float_of_string f_zero f_nonzero
    (get_or_none (rq_max_fund_amount data)) = Returned max_fund ->
  float_or_zero float_of_int float_of_string f_zero f_nonzero
    (get_or_none (rq_min_savings_balance data)) = Returned min_savings ->
  f_is_nan max_fund = false ->
  f_is_nan min_savings = false ->
  sv_response (post data db) = Returned (Success "Rule saved."%string)
  /\ sv_response
       (manage_autofund_agent_get (Some address) (sv_db (post data db)))
     = Returned
         (Success {| rv_max_fund_amount := max_fund;
                     rv_min_savings_balance := min_savings;
                     rv_is_active := is_active_of data |}).
Proof.
  intros Haddr Hne Hmax Hmin Hxn Hnn. split.
  - destruct (post_saves data db address max_fund min_savings
                Haddr Hne Hmax Hmin Hxn Hnn) as (rule & is_new & -> & _).
    reflexivity.
  - destruct (saved_rule_is_found data db address max_fund min_savings
                Haddr Hne Hmax Hmin Hxn Hnn)
      as (saved & Hread & _ & Hx & Hn & Ha).
    unfold manage_autofund_agent_get.
    rewrite (proj2 (String.eqb_neq _ _) Hne), Hread.
    now rewrite Hx, Hn, Ha.
Qed.

Lemma post_changes_only_by_saving data (db : @table F) :
  sv_db (post data db) = db
  \/ exists address max_fund min_savings,
       rq_address data = Some address /\ address <> ""%string
       /\ float_or_zero float_of_int float_of_string f_zero f_nonzero
            (get_or_none (rq_max_fund_amount data)) = Returned max_fund
       /\ float_or_zero float_of_int float_of_string f_zero f_nonzero
            (get_or_none (rq_min_savings_balance data))
          = Returned min_savings
       /\ f_is_nan max_fund = false /\ f_is_nan min_savings = false.
Proof.
  unfold manage_autofund_agent_post.
  destruct (rq_address data) as [address|]; [|now left].
  destruct (address =? "")%string eqn:Hne; [now left|].
  apply String.eqb_neq in Hne. cbn zeta.
  destruct (float_or_zero _ _ _ _ (get_or_none (rq_max_fund_amount data)))
    as [max_fund|e] eqn:Hmax; [|now left].
  destruct (float_or_zero _ _ _ _
              (get_or_none (rq_min_savings_balance data)))
    as [min_savings|e] eqn:Hmin; [|now left].
  destruct (f_is_nan max_fund) eqn:Hxn; [now left|].
  destruct (f_is_nan min_savings) eqn:Hnn; [now left|].
  right. exists address, max_fund, min_savings. auto 10.
Qed.

Lemma post_keeps_keys data (db : @table F) :
  well_keyed db -> well_keyed (sv_db (post data db)).
Proof.
  intros [Hids Haddrs].
  destruct (post_changes_only_by_saving data db)
    as [->|(address & max_fund & min_savings & Haddr & Hne & Hmax & Hmin
            & Hxn & Hnn)];
    [now split|].
  destruct (post_saves data db address max_fund min_savings
              Haddr Hne Hmax Hmin Hxn Hnn)
    as (rule & is_new & -> & Hu & _ & _ & _ & Hcase).
  cbn [sv_db]. unfold well_keyed.
  destruct (first_rule address db) as [old|] eqn:Hfound;
    destruct Hcase as [-> Hid].
  - apply find_some in Hfound. destruct Hfound as [Hold Hmatch].
    apply String.eqb_eq in Hmatch.
    destruct (save_update_keys db old rule Hids Hold Hid) as [-> ->];
      [congruence|now split].
  - assert (Hnone := find_none _ _ Hfound). unfold save.
    assert (Hone : forall A (a : A), NoDup [a])
      by (intros A a; constructor; [intros []|constructor]).
    rewrite !map_app. cbn [map]. split.
    + apply NoDup_app; [exact Hids|apply Hone|].
      intros k Hk [Heq|[]]. apply in_map_iff in Hk.
      destruct Hk as (row & <- & Hrow).
      apply id_below_next in Hrow. lia.
    + apply NoDup_app; [exact Haddrs|apply Hone|].
      intros a Ha [Heq|[]]. apply in_map_iff in Ha.
      destruct Ha as (row & <- & Hrow).
      specialize (Hnone row Hrow). cbn in Hnone.
      apply String.eqb_neq in Hnone. congruence.
Qed.

(** X14: the route keeps the two uniqueness constraints of the table.  If no
    two rows share an id and no two rows share a user_address, the same holds
    after any POST: a known address has its row updated in place, a new one
    gets a fresh id. *)
Theorem X14_post_keeps_one_rule_per_address data (db : @table F) :
  well_keyed db -> well_keyed (sv_db (post data db)).
Proof. apply post_keeps_keys. Qed.

Lemma find_after_pointwise (p : @AutoFundRule F -> bool) f (db : @table F) :
  (forall row, In row db ->
     p (f row) = p row /\ (p row = true -> f row = row)) ->
  find p (map f db) = find p db.
Proof.
  induction db as [|row rest IH]; cbn; [reflexivity|]. intros H.
  destruct (H row (or_introl eq_refl)) as [Hp Hsame].
  rewrite Hp. destruct (p row); [now rewrite Hsame|].
  apply IH. intros r Hr. apply H. now right.
Qed.

Lemma find_after_append (p : @AutoFundRule F -> bool) (db : @table F) rule :
  p rule = false -> find p (db ++ [rule]) = find p db.
Proof.
  intros Hp. induction db as [|row rest IH]; cbn; [now rewrite Hp|].
  now destruct (p row).
Qed.

(** X15: a POST for one address leaves the rule of every other address as it
    was: for a table whose ids are unique, what first() finds for another
    address is the same before and after. *)
Theorem X15_post_leaves_other_addresses_alone
    data (db : @table F) address other :
  NoDup (map id db) ->
  rq_address data = Some address ->
  other <> address ->
  first_rule other (sv_db (post data db)) = first_rule other db.
Proof.
  intros Hids Haddr Hother.
  destruct (post_changes_only_by_saving data db)
    as [->|(address' & max_fund & min_savings & Haddr' & Hne & Hmax & Hmin
            & Hxn & Hnn)];
    [reflexivity|].
  assert (address' = address) by congruence. subst address'.
  destruct (post_saves data db address max_fund min_savings
              Haddr Hne Hmax Hmin Hxn Hnn)
    as (rule & is_new & -> & Hu & _ & _ & _ & Hcase).
  cbn [sv_db].
  assert (Hrule : (user_address rule =? other)%string = false)
    by (apply String.eqb_neq; congruence).
  destruct (first_rule address db) as [old|] eqn:Hfound;
    destruct Hcase as [-> Hid]; unfold first_rule, save.
  - apply find_some in Hfound. destruct Hfound as [Hold Hmatch].
    apply String.eqb_eq in Hmatch.
    apply find_after_pointwise. intros row Hrow.
    destruct (id row =? id rule) eqn:Heq; [|auto].
    apply Z.eqb_eq in Heq.
    assert (row = old)
      by (apply (key_determines_row id db); auto; congruence).
    subst row. rewrite Hrule.
    assert (Hold' : (user_address old =? other)%string = false)
      by (apply String.eqb_neq; congruence).
    rewrite Hold'. split; [reflexivity|discriminate].
  - now apply find_after_append.
Qed.

(** X16: the agent funds for a user only while the user has said so.  After
    a POST that goes through (an address, and two amounts that convert to
    floats other than NaN), on a table that keeps its constraints, the
    rules the listener queries ([is_active] true) contain a rule for the
    address exactly when the is_active key of the request was true-ish, and
    then it is the rule just saved; a request without the key takes the user
    out of the active rules. *)
Theorem X16_active_rules_follow_the_is_active_key
    data (db : @table F) address max_fund min_savings :
  well_keyed db ->
  rq_address data = Some address ->
  address <> ""%string ->
  float_or_zero float_of_int float_of_string f_zero f_nonzero
    (get_or_none (rq_max_fund_amount data)) = Returned max_fund ->
  float_or_zero float_of_int float_of_string f_zero f_nonzero
    (get_or_none (rq_min_savings_balance data)) = Returned min_savings ->
  f_is_nan max_fund = false ->
  f_is_nan min_savings = false ->
  let active := active_rules (sv_db (post data db)) in
  (forall rule, In rule active -> user_address rule = address ->
     is_active_of data = true
     /\ max_fund_amount rule = max_fund
     /\ min_savings_balance rule = min_savings)
  /\ (is_active_of data = true ->
      exists rule, In rule active /\ user_address rule = address)
  /\ (rq_is_active data = None ->
      forall rule, In rule active -> user_address rule <> address).
Proof.
  intros Hkeys Haddr Hne Hmax Hmin Hxn Hnn active. subst active.
  assert (Hkeys' := post_keeps_keys data db Hkeys).
  destruct (saved_rule_is_found data db address max_fund
              min_savings Haddr Hne Hmax Hmin Hxn Hnn)
    as (saved & Hread & Hu & Hx & Hn & Ha).
  apply find_some in Hread. destruct Hread as [Hin _].
  assert (Honly : forall rule,
            In rule (active_rules (sv_db (post data db))) ->
            user_address rule = address -> rule = saved).
  { intros rule Hr Hua. apply filter_In in Hr. destruct Hr as [Hr _].
    apply (key_determines_row user_address (sv_db (post data db)));
      [apply Hkeys'|assumption|assumption|congruence]. }
  split; [|split].
  - intros rule Hr Hua. assert (rule = saved) by auto. subst rule.
    apply filter_In in Hr. destruct Hr as [_ Hact]. rewrite <- Ha. auto.
  - intros Hact. exists saved. split; [|exact Hu].
    apply filter_In. split; [exact Hin|]. now rewrite Ha.
  - intros Hnone rule Hr Hua. assert (rule = saved) by auto. subst rule.
    apply filter_In in Hr. destruct Hr as [_ Hact].
    rewrite Ha, Hnone in Hact. discriminate.
Qed.

(** X21: when a POST writes.  The route answers "Rule saved." exactly when
    the body has a non-empty address and both amounts convert to floats that
    are not NaN.  Only then is anything written or broadcast: with any other
    outcome (no address: status 400; a value float() refuses: its exception
    leaves the route; a NaN: the IntegrityError of the commit leaves the
    route) the table is as it was and nothing is broadcast.  With that
    answer the settings-saved notification is broadcast once, and the table
    has one row more when the address was unknown, and as many rows as before
    when it was known. *)
Theorem X21_post_writes_only_when_it_answers_saved data (db : @table F) :
  (sv_response (post data db) = Returned (Success "Rule saved."%string)
   <-> exists address max_fund min_savings,
         rq_address data = Some address /\ address <> ""%string
         /\ float_or_zero float_of_int float_of_string f_zero f_nonzero
              (get_or_none (rq_max_fund_amount data)) = Returned max_fund
         /\ float_or_zero float_of_int float_of_string f_zero f_nonzero
              (get_or_none (rq_min_savings_balance data))
            = Returned min_savings
         /\ f_is_nan max_fund = false /\ f_is_nan min_savings = false)
  /\ match sv_response (post data db) with
     | Returned (Success _) =>
         sv_emitted (post data db) = [settings_saved]
         /\ exists address,
              rq_address data = Some address
              /\ List.length (sv_db (post data db))
                 = (List.length db
                    + match first_rule address db with
                      | Some _ => 0
                      | None => 1
                      end)%nat
     | _ => sv_db (post data db) = db /\ sv_emitted (post data db) = []
     end.
Proof.
  split.
  - split.
    + intros Hsaved.
      destruct (post_changes_only_by_saving data db) as [Hsame|Hgoes];
        [|exact Hgoes].
      revert Hsaved Hsame. unfold manage_autofund_agent_post.
      destruct (rq_address data) as [address|]; [|discriminate].
      destruct (address =? "")%string eqn:Hne; [discriminate|]. cbn zeta.
      apply String.eqb_neq in Hne.
      destruct (float_or_zero _ _ _ _ (get_or_none (rq_max_fund_amount data)))
        as [max_fund|e] eqn:Hmax; [|discriminate].
      destruct (float_or_zero _ _ _ _
                  (get_or_none (rq_min_savings_balance data)))
        as [min_savings|e] eqn:Hmin; [|discriminate].
      destruct (f_is_nan max_fund) eqn:Hxn; [discriminate|].
      destruct (f_is_nan min_savings) eqn:Hnn; [discriminate|].
      intros _ _. exists address, max_fund, min_savings. auto 10.
    + intros (address & max_fund & min_savings & Haddr & Hne & Hmax & Hmin
              & Hxn & Hnn).
      destruct (post_saves data db address max_fund min_savings
                  Haddr Hne Hmax Hmin Hxn Hnn) as (rule & is_new & -> & _).
      reflexivity.
  - unfold manage_autofund_agent_post.
    destruct (rq_address data) as [address|]; [|now split].
    destruct (address =? "")%string; [now split|]. cbn zeta.
    destruct (float_or_zero _ _ _ _ (get_or_none (rq_max_fund_amount data)))
      as [max_fund|e]; [|now split].
    destruct (float_or_zero _ _ _ _
                (get_or_none (rq_min_savings_balance data)))
      as [min_savings|e]; [|now split].
    destruct (f_is_nan max_fund || f_is_nan min_savings)%bool; [now split|].
    cbn [sv_response sv_emitted sv_db]. split; [reflexivity|].
    exists address. split; [reflexivity|]. unfold save.
    destruct (first_rule address db).
    + now rewrite length_map, Nat.add_0_r.
    + now rewrite length_app.
Qed.

End ApiFacts.

(** * The table world: the order of exact amounts, and the scenarios *)

Lemma exact_ether_order : EtherOrder ExactEther.
Proof.
  split; cbn.
  - intros a. rewrite (proj2 (Qle_bool_iff a a)); [reflexivity|].
    apply Qle_refl.
  - intros a b H. apply negb_true_iff in H.
    rewrite (proj2 (Qle_bool_iff a b)); [reflexivity|].
    apply Qlt_le_weak, Qnot_le_lt. intros Hle.
    apply Qle_bool_iff in Hle. congruence.
  - intros a b H. now rewrite H.
Qed.

Lemma exact_conversions_do_not_inflate :
  @conversions_do_not_inflate Q ExactEther.
Proof.
  intros n m x k Hx Hk. cbn in Hx, Hk.
  unfold exact_from_wei in Hx. unfold exact_to_wei in Hk.
  destruct (in_wei_range n) eqn:Hn; [|discriminate].
  injection Hx as <-.
  destruct (in_wei_range (_ ÷ _)) eqn:Hr in Hk; [|discriminate].
  injection Hk as <-.
  unfold in_wei_range in Hn, Hr.
  apply andb_prop in Hn. destruct Hn as [Hn _]. apply Z.leb_le in Hn.
  apply andb_prop in Hr. destruct Hr as [Hr _]. apply Z.leb_le in Hr.
  unfold py_min in *. cbn [f_lt ExactEther] in *.
  destruct (Qle_bool m (Qmake n (10 ^ 18))) eqn:Hle; cbn [negb] in *.
  - apply Qle_bool_iff in Hle. unfold Qle in Hle. cbn [Qnum Qden] in Hle.
    destruct (Z.le_gt_cases 0 (Qnum m * 10 ^ 18)) as [Hnum|Hnum].
    + rewrite Z.quot_div_nonneg by lia.
      apply Z.div_le_upper_bound; [lia|].
      change (Z.pos (10 ^ 18)) with (10 ^ 18) in Hle. lia.
    + generalize (Z.quot_opp_l (- (Qnum m * 10 ^ 18)) (Z.pos (Qden m))).
      rewrite Z.opp_involutive. intros Hq.
      assert (0 <= - (Qnum m * 10 ^ 18) ÷ Z.pos (Qden m))
        by (apply Z.quot_pos; lia).
      lia.
  - cbn [Qnum Qden]. change (Z.pos (10 ^ 18)) with (10 ^ 18).
    rewrite Z.quot_mul by lia. lia.
Qed.

(** Scenario A runs as the spec describes it: 60, then 40, then the loop
    halts. *)
Example scenario_A_runs :
  confirmed (log (run_auto_fund scenario_A request_3)) = [ether 60; ether 40]
  /\ value (run_auto_fund scenario_A request_3) = Returned tt.
Proof. vm_compute. auto. Qed.

(** Scenario B: the rule is skipped and nothing is submitted. *)
Example scenario_B_runs :
  submitted (log (run_auto_fund scenario_B request_3)) = []
  /\ log (run_auto_fund scenario_B request_3)
     = [Entry QueryActiveRules (Returned [rule_of alice 60 10]);
        Entry (GetLoan 3) (Returned (loan_of carol (ether 100) 0));
        Entry (GetMember alice) (Returned (member_with (ether 5)))].
Proof. vm_compute. auto. Qed.

(** C1, at an input where the code departs from it: with the notifier down,
    the first confirmed funding of 60 is not taken off the amount needed, so
    the second rule funds min(50, 100) = 50 instead of 40, and the fundings
    confirmed for a loan needing 100 add up to 110. *)
Theorem C1_confirmed_sum_exceeds_need_when_emit_raises :
  let r := run_auto_fund scenario_notifier_down request_3 in
  sc_loan scenario_notifier_down 3 = Returned (loan_of carol (ether 100) 0)
  /\ confirmed (log r) = [ether 60; ether 50]
  /\ sum (confirmed (log r)) = ether 110
  /\ ether 100 < sum (confirmed (log r))
  /\ value (run_rule scenario_notifier_down (rule_of alice 60 10) (ether 100))
     = Returned (ether 100, Continue).
Proof. vm_compute. repeat split; reflexivity. Qed.

(** C2, at an input where the code departs from it: the transaction of the
    first rule is confirmed for the whole 100 needed, [sio.emit] raises, and
    the turn ends with the amount needed still at 100 and without halting;
    the next rule then submits another 50. *)
Theorem C2_emit_failure_skips_the_decrement :
  let it := run_rule scenario_notifier_down_full (rule_of alice 100 10)
                     (ether 100) in
  confirmed (log it) = [ether 100]
  /\ emit_failed (log it) = true
  /\ value it = Returned (ether 100, Continue)
  /\ submitted (log (run_auto_fund scenario_notifier_down_full request_3))
     = [fund_tx_3 (ether 100); fund_tx_3 (ether 50)].
Proof. vm_compute. repeat split; reflexivity. Qed.

Lemma C3_witness :
  let it := run_rule scenario_D (rule_of alice 60 10) (ether 100) in
  In (failure_notification 3) (emitted (log it))
  /\ confirmed (log it) = []
  /\ value it = Returned (ether 100, Continue).
Proof.
  destruct (C3_reverted_transaction_alerts_and_continues
              unit (scenario_env scenario_D) 3 carol (rule_of alice 60 10)
              [rule_of bob 50 10] (ether 100) tt (fund_tx_3 (ether 60)) 0)
    as (H1 & H2 & H3 & _).
  - vm_compute. left. reflexivity.
  - lia.
  - exact (conj H1 (conj H2 H3)).
Defined.

Lemma C4_witness :
  submitted (log (run_auto_fund scenario_funded request_3)) = [].
Proof.
  apply (C4_funded_loan_is_noop unit (scenario_env scenario_funded)
           request_3 tt (loan_of carol (ether 100) (ether 100))).
  - vm_compute. left. reflexivity.
  - vm_compute. discriminate.
Defined.


Lemma C6_witness :
  run_rule scenario_A (rule_of carol 60 10) (ether 100)
  = Run (Returned (ether 100, Continue)) tt [].
Proof.
  apply (C6_own_loan_rule_skipped unit (scenario_env scenario_A) 3 carol
           (rule_of carol 60 10) [] (ether 100) tt).
  reflexivity.
Defined.

Lemma C7_witness :
  run_rule scenario_rpc_error (rule_of alice 60 10) (ether 100)
  = Run (Returned (ether 100, Continue)) tt
        [Entry (GetMember alice) (Raised "ConnectionError"%string)].
Proof.
  apply (C7_rule_exception_skips_rule_only
           unit (scenario_env scenario_rpc_error) 3 carol
           (rule_of alice 60 10) [rule_of bob 50 10] (ether 100) tt
           "ConnectionError"%string).
  reflexivity.
Defined.

(** C8 as the spec states it does not hold in every invocation: here loans 0,
    1 and 2 all meet the condition, the read of loan 1 raises, and loan 2
    gets no alert. *)
Lemma C8_counterexample :
  let s := scenario_audit_broken in
  sc_loan s 2 = Returned (running_loan 2 false)
  /\ sc_installment s 2 2 = Returned (installment_due 1000)
  /\ severely_overdue
       (2, running_loan 2 false, Some (installment_due 1000, sc_now s))
     = true
  /\ count_occ Z.eq_dec (overdue_alerts (log (run_audit s))) 2 <> 1%nat.
Proof. vm_compute. repeat split; auto; discriminate. Qed.

Lemma C8_witness :
  let r := run_audit scenario_audit in
  map view_id (audited (log r)) = [0; 1; 2]
  /\ overdue_alerts (log r) = [0; 1; 2]
  /\ submitted (log r) = [].
Proof.
  destruct (C8_auditor_alerts_once_per_overdue_loan
              unit (scenario_env scenario_audit)
              (scenario_clock scenario_audit) tt)
    as (total_loans & w1 & Htotal & Hids & _ & _ & _ & _ & Hsub).
  - vm_compute. reflexivity.
  - vm_compute in Htotal. injection Htotal as <-.
    split; [exact Hids|]. split; [|exact Hsub]. vm_compute. reflexivity.
Defined.

Lemma C10_witness :
  let r := run_audit scenario_audit_broken in
  value r = Returned tt
  /\ (forall j, In j (overdue_alerts (log r)) -> 0 <= j < 1).
Proof.
  destruct (C10_failed_read_aborts_the_scan
              unit (scenario_env scenario_audit_broken)
              (scenario_clock scenario_audit_broken) tt 3 tt 1 tt
              (log (scan_loans unit (scenario_env scenario_audit_broken)
                      (scenario_clock scenario_audit_broken) (range 1) tt)))
    as (Hv & _ & _ & Halerts & _).
  - reflexivity.
  - lia.
  - vm_compute. reflexivity.
  - vm_compute. reflexivity.
  - exact (conj Hv Halerts).
Defined.

(** Three turns in which the first poll raises each time: the loop goes on,
    with its three sleeps. *)
Example poll_errors_are_survived :
  pacing_sleeps (log (run_turns scenario_poll_error 3)) = 3%nat
  /\ value (run_turns scenario_poll_error 3) = Returned 0%Q.
Proof. vm_compute. auto. Qed.

(** * Binary64 amounts *)





(** The round trip through binary64 can inflate an amount.  A need of
    2 * 10^18 - 1 wei becomes the float 2.0, which [w3.to_wei] turns into
    2 * 10^18 wei: one wei more than needed. *)
Lemma binary64_round_trip_inflates web3_to_wei :
  web3_to_wei b64_two = Returned (2 * 10 ^ 18) ->
  @from_wei _ (Binary64Ether web3_to_wei) (2 * 10 ^ 18 - 1) = Returned b64_two
  /\ @py_min _ (Binary64Ether web3_to_wei) b64_thousand b64_two = b64_two
  /\ ~ @conversions_do_not_inflate _ (Binary64Ether web3_to_wei).
Proof.
  intros Hwei.
  assert (Hfrom : @from_wei _ (Binary64Ether web3_to_wei) (2 * 10 ^ 18 - 1)
                  = Returned b64_two) by (vm_compute; reflexivity).
  assert (Hmin : @py_min _ (Binary64Ether web3_to_wei) b64_thousand b64_two
                 = b64_two) by (vm_compute; reflexivity).
  repeat split; auto.
  intros Hno.
  specialize (Hno (2 * 10 ^ 18 - 1) b64_thousand b64_two (2 * 10 ^ 18) Hfrom).
  rewrite Hmin in Hno. specialize (Hno Hwei). lia.
Qed.

(** ** The rule conditions on binary64 amounts *)



(** * The further properties on the scenarios *)

Lemma X1_witness :
  log (run_auto_fund scenario_loan_read_fails request_3)
  = [Entry QueryActiveRules (Returned [rule_of alice 60 10; rule_of bob 50 10]);
     Entry (GetLoan 3) (Raised "ConnectionError"%string)].
Proof.
  destruct (X1_auto_fund_raises_only_before_the_rules
              unit (scenario_env scenario_loan_read_fails) request_3 tt
              "ConnectionError"%string) as [H|(rule & rules & H)].
  - reflexivity.
  - vm_compute in H. discriminate.
  - vm_compute. reflexivity.
Defined.

Lemma X3_witness :
  exists before r after,
    log (run_rule scenario_A (rule_of alice 60 10) (ether 100))
    = before
      ++ [Entry GetTransactionCount (Returned 7);
          Entry GasPrice (Returned 20);
          Entry (BuildTransaction (fund_tx_3 (ether 60))) (Returned tt);
          Entry (SignTransaction (fund_tx_3 (ether 60))) (Returned tt);
          Entry (SendRawTransaction (fund_tx_3 (ether 60))) r]
      ++ after.
Proof.
  apply (X3_submission_follows_fresh_nonce
           unit (scenario_env scenario_A) 3 carol (rule_of alice 60 10)
           (ether 100) tt (fund_tx_3 (ether 60))).
  vm_compute. left. reflexivity.
Defined.

Lemma X4_witness :
  let it := run_rule scenario_full_cover (rule_of alice 100 10) (ether 100) in
  let r := rules_loop unit (scenario_env scenario_full_cover) 3 carol
             [rule_of alice 100 10; rule_of bob 50 10] (ether 100) tt in
  value r = Returned (ether 100 - ether 100) /\ log r = log it
  /\ final r = final it.
Proof.
  destruct (X4_loop_halts_once_funded
              unit (scenario_env scenario_full_cover) 3 carol
              (rule_of alice 100 10) [rule_of bob 50 10] (ether 100) tt
              (ether 100)) as [Hhalts _].
  - vm_compute. reflexivity.
  - vm_compute. reflexivity.
  - apply Hhalts. vm_compute. discriminate.
Defined.

Lemma X6_witness :
  2 < 12
  /\ exists d,
       In (0, d) (loan_views (log (run_audit scenario_audit)))
       /\ isActive d = true /\ isDefaulted d = false
       /\ 2 = nextInstallmentIndex d.
Proof.
  apply (X6_auditor_reads_only_the_next_installment
           unit (scenario_env scenario_audit) (scenario_clock scenario_audit)
           tt 0 2).
  vm_compute. left. reflexivity.
Defined.

Lemma X8_witness :
  run_turn scenario_loan_read_fails
  = Run (Returned 0%Q) tt
        (Entry NewLoanRequested (Returned ([] ++ [request_3]))
         :: [] ++ log (run_auto_fund scenario_loan_read_fails request_3)
            ++ [Slept 15]).
Proof.
  apply (X8_failing_request_drops_the_rest_of_the_turn
           unit (scenario_env scenario_loan_read_fails) (fun _ w => w)
           (scenario_clock scenario_loan_read_fails) Qminus false 0%Q tt
           [] request_3 [] tt tt [] "ConnectionError"%string).
  - reflexivity.
  - reflexivity.
  - reflexivity.
Defined.

Lemma X9_witness : submitted (log (run_turn scenario_audit)) = [].
Proof.
  apply (X9_no_loan_request_no_transaction
           unit (scenario_env scenario_audit) (fun _ w => w)
           (scenario_clock scenario_audit) Qminus false 0%Q tt).
  intros w0 events w1 H. vm_compute in H. now injection H as <-.
Defined.

Lemma X10_witness :
  count_entries is_audit_start (log (run_turn scenario_A)) = 0%nat.
Proof.
  apply (X10_auditor_waits_for_its_interval
           unit (scenario_env scenario_A) (fun _ w => w)
           (scenario_clock scenario_A) Qminus false 0%Q tt).
  intros w0. reflexivity.
Defined.

Lemma X13_witness :
  sv_response (demo_post bob_request demo_db)
  = Returned (Success "Rule saved."%string)
  /\ sv_response
       (manage_autofund_agent_get (Some bob)
          (sv_db (demo_post bob_request demo_db)))
     = Returned
         (Success {| rv_max_fund_amount := inject_Z 50;
                     rv_min_savings_balance := inject_Z 10;
                     rv_is_active := true |}).
Proof.
  apply (X13_saved_rule_is_read_back
           q_float_of_int q_float_of_string 0%Q q_nonzero q_is_nan
           bob_request demo_db bob (inject_Z 50) (inject_Z 10)).
  - reflexivity.
  - discriminate.
  - reflexivity.
  - reflexivity.
  - reflexivity.
  - reflexivity.
Defined.

Lemma demo_db_well_keyed : well_keyed demo_db.
Proof.
  split; cbn; (constructor; [intros []|constructor]).
Qed.

Lemma X14_witness : well_keyed (sv_db (demo_post bob_request demo_db)).
Proof.
  apply (X14_post_keeps_one_rule_per_address
           q_float_of_int q_float_of_string 0%Q q_nonzero q_is_nan
           bob_request demo_db).
  exact demo_db_well_keyed.
Defined.

Lemma X15_witness :
  first_rule alice (sv_db (demo_post bob_request demo_db))
  = first_rule alice demo_db.
Proof.
  apply (X15_post_leaves_other_addresses_alone
           q_float_of_int q_float_of_string 0%Q q_nonzero q_is_nan
           bob_request demo_db bob alice).
  - exact (proj1 demo_db_well_keyed).
  - reflexivity.
  - discriminate.
Defined.

Lemma X16_witness :
  (exists rule,
     In rule (active_rules (sv_db (demo_post bob_request demo_db)))
     /\ user_address rule = bob)
  /\ (forall rule,
        In rule (active_rules (sv_db (demo_post alice_request demo_db))) ->
        user_address rule <> alice).
Proof.
  split.
  - destruct (X16_active_rules_follow_the_is_active_key
                q_float_of_int q_float_of_string 0%Q q_nonzero q_is_nan
                bob_request demo_db bob (inject_Z 50) (inject_Z 10))
      as (_ & Hlisted & _).
    + exact demo_db_well_keyed.
    + reflexivity.
    + discriminate.
    + reflexivity.
    + reflexivity.
    + reflexivity.
    + reflexivity.
    + apply Hlisted. reflexivity.
  - destruct (X16_active_rules_follow_the_is_active_key
                q_float_of_int q_float_of_string 0%Q q_nonzero q_is_nan
                alice_request demo_db alice (inject_Z 80) 0%Q)
      as (_ & _ & Hout).
    + exact demo_db_well_keyed.
    + reflexivity.
    + discriminate.
    + reflexivity.
    + reflexivity.
    + reflexivity.
    + reflexivity.
    + apply Hout. reflexivity.
Defined.

Lemma X17_witness :
  confirmed (log (b64_run_auto_fund scenario_two_lenders))
  = [ether 60; ether 40]
  /\ sum (removelast (confirmed (log (b64_run_auto_fund scenario_two_lenders))))
     < ether 100 - 0.
Proof.
  destruct (@X17_only_the_last_funding_can_pass_the_need
              spec_float WholeEther unit (b64_env scenario_two_lenders)
              request_3 tt)
    as [Hbound _].
  - vm_compute. reflexivity.
  - split; [vm_compute; reflexivity|].
    destruct (Hbound (loan_of carol (ether 100) 0)) as [Hnone|Hbelow].
    + vm_compute. left. reflexivity.
    + vm_compute in Hnone. discriminate.
    + exact Hbelow.
Defined.

